(** * DIY AFM raster-scan firmware: a shallow embedding and its properties

    The embedded program is the Arduino sketch
    [DIY_AFM_control_Arduino_firmware_115200_Baud_v_4.ino].  The sketch drives
    the registers [DDRL]/[PORTL] and [DDRC]/[PORTC], which exist on the
    ATmega640/1280/2560 family (Arduino Mega): there [int] is a 16-bit
    two's-complement integer, [unsigned int] a 16-bit natural, [byte] an
    unsigned 8-bit integer and [char] a signed 8-bit integer.  Integers are
    modelled as [Z] with these widths written out. *)

From Stdlib Require Import ZArith List Ascii String Bool Lia.
From stdpp Require Import base option list.
Import ListNotations.
Local Open Scope Z_scope.

(** ** Machine integers *)

(** Value of an [int] (16 bits, two's complement) holding [z] modulo 2^16. *)
Definition to_int (z : Z) : Z := (z + 32768) mod 65536 - 32768.

(** Conversion to [unsigned int], as in the argument of [delayMicroseconds]. *)
Definition to_uint (z : Z) : Z := z mod 65536.

(** Conversion to [byte] and to the 8-bit port registers. *)
Definition to_byte (z : Z) : Z := z mod 256.

(** Conversion to [char], which is signed on this target. *)
Definition to_char (z : Z) : Z := (z + 128) mod 256 - 128.

(** Code of a received byte, as [Serial.read()] returns it (0..255). *)
Definition chr (c : ascii) : Z := Z.of_N (N_of_ascii c).

(** The line-feed byte ['\n']. *)
Definition LF : ascii := "010"%char.

Definition bytes (s : string) : list ascii := list_ascii_of_string s.

(** ** Constants of the sketch (globals that are never assigned) *)

Definition maxDigitfx : Z := 3.
Definition maxfx : Z := 255.
Definition maxDigitfy : Z := 3.
Definition maxfy : Z := 255.
Definition maxDigitgap : Z := 3.
Definition maxgap : Z := 128.
Definition maxDigitpoint : Z := 5.
Definition maxpoint : Z := 11.

(** ** Observable actions *)

Inductive event : Type :=
| PortL (v : Z)               (* PORTL = v : the X bus *)
| PortC (v : Z)               (* PORTC = v : the Y bus *)
| Delay (ms : Z)              (* delay(ms) *)
| DelayMicroseconds (us : Z)  (* delayMicroseconds(us) *)
| AnalogRead (v : Z)          (* analogRead(A0) returned v *)
| SerialPrint (c : ascii)     (* Serial.print(c) *)
| SerialPrintln (v : Z).      (* Serial.println(v) *)

Definition is_ack (e : event) : bool :=
  match e with SerialPrint c => (chr c =? chr "a")%Z | _ => false end.

Definition is_port (e : event) : bool :=
  match e with PortL _ | PortC _ => true | _ => false end.

(** ** Program state

    The globals of the sketch that carry information from one statement to
    a later one, the two port registers, and the environment: [rx] is the
    stream of bytes the serial port delivers, [adc] the successive results
    of [analogRead(A0)] and [adc_reads] how many of them were consumed.
    [trace] lists the actions performed so far, oldest first.  The scratch
    globals [val], [j], [i], [temp*] and [fes_signal] are always written
    before they are read and appear as local values.

    The first byte of [rx], when there is one, is waiting when [loop()]
    calls [Serial.available()]; the later ones are waiting or arrive while
    the accumulation loop of a parameter command reads.  An iteration that
    finds nothing waiting is an iteration with [rx = []]. *)

Record state : Type := mkState {
  direc : Z;
  startX : Z;
  startY : Z;
  gap : Z;
  delay_time : Z;
  inputfx : list Z;
  inputfy : list Z;
  inputgap : list Z;
  inputpoint : list Z;
  fes : list Z;
  PORTL : Z;
  PORTC : Z;
  rx : list ascii;
  adc : nat -> Z;
  adc_reads : nat;
  trace : list event
}.

Definition set_direc (v : Z) (s : state) : state :=
  mkState v (startX s) (startY s) (gap s) (delay_time s) (inputfx s)
    (inputfy s) (inputgap s) (inputpoint s) (fes s) (PORTL s) (PORTC s)
    (rx s) (adc s) (adc_reads s) (trace s).
Definition set_startX (v : Z) (s : state) : state :=
  mkState (direc s) v (startY s) (gap s) (delay_time s) (inputfx s)
    (inputfy s) (inputgap s) (inputpoint s) (fes s) (PORTL s) (PORTC s)
    (rx s) (adc s) (adc_reads s) (trace s).
Definition set_startY (v : Z) (s : state) : state :=
  mkState (direc s) (startX s) v (gap s) (delay_time s) (inputfx s)
    (inputfy s) (inputgap s) (inputpoint s) (fes s) (PORTL s) (PORTC s)
    (rx s) (adc s) (adc_reads s) (trace s).
Definition set_gap (v : Z) (s : state) : state :=
  mkState (direc s) (startX s) (startY s) v (delay_time s) (inputfx s)
    (inputfy s) (inputgap s) (inputpoint s) (fes s) (PORTL s) (PORTC s)
    (rx s) (adc s) (adc_reads s) (trace s).
Definition set_delay_time (v : Z) (s : state) : state :=
  mkState (direc s) (startX s) (startY s) (gap s) v (inputfx s)
    (inputfy s) (inputgap s) (inputpoint s) (fes s) (PORTL s) (PORTC s)
    (rx s) (adc s) (adc_reads s) (trace s).
Definition set_inputfx (v : list Z) (s : state) : state :=
  mkState (direc s) (startX s) (startY s) (gap s) (delay_time s) v
    (inputfy s) (inputgap s) (inputpoint s) (fes s) (PORTL s) (PORTC s)
    (rx s) (adc s) (adc_reads s) (trace s).
Definition set_inputfy (v : list Z) (s : state) : state :=
  mkState (direc s) (startX s) (startY s) (gap s) (delay_time s) (inputfx s)
    v (inputgap s) (inputpoint s) (fes s) (PORTL s) (PORTC s)
    (rx s) (adc s) (adc_reads s) (trace s).
Definition set_inputgap (v : list Z) (s : state) : state :=
  mkState (direc s) (startX s) (startY s) (gap s) (delay_time s) (inputfx s)
    (inputfy s) v (inputpoint s) (fes s) (PORTL s) (PORTC s)
    (rx s) (adc s) (adc_reads s) (trace s).
Definition set_inputpoint (v : list Z) (s : state) : state :=
  mkState (direc s) (startX s) (startY s) (gap s) (delay_time s) (inputfx s)
    (inputfy s) (inputgap s) v (fes s) (PORTL s) (PORTC s)
    (rx s) (adc s) (adc_reads s) (trace s).
Definition set_fes (v : list Z) (s : state) : state :=
  mkState (direc s) (startX s) (startY s) (gap s) (delay_time s) (inputfx s)
    (inputfy s) (inputgap s) (inputpoint s) v (PORTL s) (PORTC s)
    (rx s) (adc s) (adc_reads s) (trace s).
Definition set_PORTL (v : Z) (s : state) : state :=
  mkState (direc s) (startX s) (startY s) (gap s) (delay_time s) (inputfx s)
    (inputfy s) (inputgap s) (inputpoint s) (fes s) v (PORTC s)
    (rx s) (adc s) (adc_reads s) (trace s).
Definition set_PORTC (v : Z) (s : state) : state :=
  mkState (direc s) (startX s) (startY s) (gap s) (delay_time s) (inputfx s)
    (inputfy s) (inputgap s) (inputpoint s) (fes s) (PORTL s) v
    (rx s) (adc s) (adc_reads s) (trace s).
Definition set_rx (v : list ascii) (s : state) : state :=
  mkState (direc s) (startX s) (startY s) (gap s) (delay_time s) (inputfx s)
    (inputfy s) (inputgap s) (inputpoint s) (fes s) (PORTL s) (PORTC s)
    v (adc s) (adc_reads s) (trace s).
Definition set_adc_reads (v : nat) (s : state) : state :=
  mkState (direc s) (startX s) (startY s) (gap s) (delay_time s) (inputfx s)
    (inputfy s) (inputgap s) (inputpoint s) (fes s) (PORTL s) (PORTC s)
    (rx s) (adc s) v (trace s).
Definition set_trace (v : list event) (s : state) : state :=
  mkState (direc s) (startX s) (startY s) (gap s) (delay_time s) (inputfx s)
    (inputfy s) (inputgap s) (inputpoint s) (fes s) (PORTL s) (PORTC s)
    (rx s) (adc s) (adc_reads s) v.

(** The state after the global initialisers and [setup()]: mode IDLE
    ([direc = 2]), origins and gap zero, dwell 1400, both buses zero.  The
    arrays have their declared sizes and are zero-initialised. *)
Definition initial (input : list ascii) (a : nat -> Z) : state :=
  mkState 2 0 0 0 1400
    (replicate 4 0) (replicate 4 0) (replicate 4 0) (replicate 6 0)
    (replicate 256 0) 0 0 input a 0%nat [].

(** The arrays have the sizes of their declarations. *)
Definition wf (s : state) : Prop :=
  length (inputfx s) = 4%nat /\ length (inputfy s) = 4%nat /\
  length (inputgap s) = 4%nat /\ length (inputpoint s) = 6%nat /\
  length (fes s) = 256%nat.

(** The configuration record of the specification. *)
Definition config (s : state) : Z * Z * Z * Z * Z :=
  (direc s, startX s, startY s, gap s, delay_time s).

(** ** Primitive actions *)

Definition emit (e : event) (s : state) : state :=
  set_trace (trace s ++ [e]) s.

(** [PORTL = v;] *)
Definition write_PORTL (v : Z) (s : state) : state :=
  emit (PortL (to_byte v)) (set_PORTL (to_byte v) s).

(** [PORTC = v;] *)
Definition write_PORTC (v : Z) (s : state) : state :=
  emit (PortC (to_byte v)) (set_PORTC (to_byte v) s).

(** [analogRead(A0)]: the next value of the converter. *)
Definition analogRead (s : state) : Z * state :=
  let v := adc s (adc_reads s) in
  (v, emit (AnalogRead v) (set_adc_reads (S (adc_reads s)) s)).

(** [Serial.available()] *)
Definition Serial_available (s : state) : bool :=
  match rx s with [] => false | _ :: _ => true end.

(** [Serial.read()]: the next received byte, or -1 when none is waiting. *)
Definition Serial_read (s : state) : Z * state :=
  match rx s with
  | [] => (-1, s)
  | c :: rest => (chr c, set_rx rest s)
  end.

(** ** The C library's [atoi]

    Leading white space is skipped, an optional sign is read, then decimal
    digits are accumulated until the first other character (here the
    terminating NUL).  The accumulator is an [int]: avr-libc computes
    [10 * acc + digit] in a 16-bit register pair, so a number that does not
    fit is reduced modulo 2^16. *)

Definition isspace (c : Z) : bool := (c =? 32) || ((9 <=? c) && (c <=? 13)).
Definition isdigit (c : Z) : bool := (48 <=? c) && (c <=? 57).

Fixpoint skip_space (s : list Z) : list Z :=
  match s with
  | c :: s' => if isspace c then skip_space s' else s
  | [] => []
  end.

Fixpoint atoi_digits (s : list Z) (acc : Z) : Z :=
  match s with
  | c :: s' =>
      if isdigit c then atoi_digits s' (to_int (acc * 10 + (c - 48))) else acc
  | [] => acc
  end.

Definition atoi (s : list Z) : Z :=
  match skip_space s with
  | c :: s' =>
      if c =? 45 then to_int (- atoi_digits s' 0)
      else if c =? 43 then atoi_digits s' 0
      else atoi_digits (c :: s') 0
  | [] => 0
  end.

(** ** The command interpreter (lines 57-133 of the sketch) *)

(** The accumulation loop shared, up to the names of its variables, by the
    four parameter commands:
<<
      while ((temp = Serial.read()) != '\n') {
        if (temp >= '0' && temp <= '9' && j < maxDigit) {
          input[j] = temp;
          j++;
        }
      }
>>
    It returns the buffer, the counter [j] and the bytes left in the stream.
    A read that finds no byte returns -1, which is neither a line feed nor
    a digit, and the loop reads again: when the stream ends before a line
    feed the loop never exits, which is the result [None]. *)
Fixpoint read_digits (maxDigit : Z) (input : list Z) (j : Z)
    (stream : list ascii) : option (list Z * Z * list ascii) :=
  match stream with
  | [] => None
  | c :: rest =>
      let temp := to_char (chr c) in
      if temp =? chr LF then Some (input, j, rest)
      else if (chr "0" <=? temp) && (temp <=? chr "9") && (j <? maxDigit)
      then read_digits maxDigit (<[Z.to_nat j := temp]> input)
             (to_byte (j + 1)) rest
      else read_digits maxDigit input j rest
  end.

(** [j = 0; while ... ; input[j] = '\0'; ... atoi(input)]: the number read,
    the buffer as it is left, and the rest of the stream. *)
Definition read_number (maxDigit : Z) (input : list Z)
    (stream : list ascii) : option (Z * list Z * list ascii) :=
  '(input1, j, rest) ← read_digits maxDigit input 0 stream;
  let input2 := <[Z.to_nat j := 0]> input1 in
  Some (atoi input2, input2, rest).

(** [if (v > max) v = max;] *)
Definition clamp (max v : Z) : Z := if max <? v then max else v.

Definition case_p (s : state) : option state :=
  '(n, buf, rest) ← read_number maxDigitpoint (inputpoint s) (rx s);
  Some (set_delay_time n (set_inputpoint buf (set_rx rest s))).

Definition case_x (s : state) : option state :=
  '(n, buf, rest) ← read_number maxDigitfx (inputfx s) (rx s);
  Some (set_startX (clamp maxfx n) (set_inputfx buf (set_rx rest s))).

Definition case_y (s : state) : option state :=
  '(n, buf, rest) ← read_number maxDigitfy (inputfy s) (rx s);
  Some (set_startY (clamp maxfy n) (set_inputfy buf (set_rx rest s))).

Definition case_g (s : state) : option state :=
  '(n, buf, rest) ← read_number maxDigitgap (inputgap s) (rx s);
  Some (set_gap (clamp maxgap n) (set_inputgap buf (set_rx rest s))).

Definition case_u (s : state) : state := set_direc 0 s.

Definition case_e (s : state) : state :=
  write_PORTC 0 (write_PORTL 0 (set_direc 2 s)).

(** [switch (val) { ... }]; a byte that matches no case falls through. *)
Definition switch_val (val : Z) (s : state) : option state :=
  if val =? chr "p" then case_p s
  else if val =? chr "x" then case_x s
  else if val =? chr "y" then case_y s
  else if val =? chr "g" then case_g s
  else if val =? chr "u" then Some (case_u s)
  else if val =? chr "e" then Some (case_e s)
  else Some s.

(** [if (direc == 0) Serial.print('a');] *)
Definition acknowledge (s : state) : state :=
  if direc s =? 0 then emit (SerialPrint "a") s else s.

(** The body of [if (Serial.available()) { ... }]. *)
Definition interpret (s : state) : option state :=
  let '(v, s1) := Serial_read s in
  let val := to_char v in
  s2 ← switch_val val s1;
  Some (acknowledge s2).

Definition command_interpreter (s : state) : option state :=
  if Serial_available s then interpret s else Some s.

(** ** The raster scan engine (lines 134-159 of the sketch) *)

(** [for (i = start; i < start + n; i++) body], for a body that does not
    assign [i]. *)
Fixpoint for_loop (n : nat) (i : Z) (body : Z -> state -> state)
    (s : state) : state :=
  match n with
  | O => s
  | S n' => for_loop n' (i + 1) body (body i s)
  end.

(** [PORTL = i; delayMicroseconds(delay_time); fes[i] = analogRead(A0);] *)
Definition sample_body (i : Z) (s : state) : state :=
  let s1 := write_PORTL i s in
  let s2 := emit (DelayMicroseconds (to_uint (delay_time s1))) s1 in
  let '(v, s3) := analogRead s2 in
  set_fes (<[Z.to_nat i := v]> (fes s3)) s3.

(** [Serial.println(fes[i]); delayMicroseconds(50);] *)
Definition send_body (i : Z) (s : state) : state :=
  let s1 := emit (SerialPrintln (default 0 (fes s !! Z.to_nat i))) s in
  emit (DelayMicroseconds 50) s1.

(** Lines 136-144: set the Y bus, settle, sweep X from 0 to 255. *)
Definition scan_line (s : state) : state :=
  let s1 := write_PORTC (startY s) s in
  let s2 := emit (Delay 1) s1 in
  for_loop 256 0 sample_body s2.

(** Line 147: [startY += gap;] *)
Definition next_line (s : state) : state :=
  set_startY (to_int (startY s + gap s)) s.

(** Lines 150-153: send the buffered line. *)
Definition send_line (s : state) : state :=
  for_loop 256 0 send_body s.

(** The RUN branch, in the order of the source. *)
Definition run_step (s : state) : state :=
  send_line (next_line (scan_line s)).

(** The IDLE branch:
    [fes_signal = analogRead(A0); Serial.println(fes_signal); delay(10);] *)
Definition idle_step (s : state) : state :=
  let '(fes_signal, s1) := analogRead s in
  emit (Delay 10) (emit (SerialPrintln fes_signal) s1).

Definition scan_engine (s : state) : state :=
  if direc s =? 0 then run_step s else idle_step s.

(** ** One iteration of [loop()] and runs of several iterations *)

Definition loop (s : state) : option state :=
  s1 ← command_interpreter s;
  Some (scan_engine s1).

Fixpoint loops (n : nat) (s : state) : option state :=
  match n with
  | O => Some s
  | S n' => s1 ← loop s; loops n' s1
  end.

(** Projections of a trace. *)
Definition x_writes (t : list event) : list Z :=
  omap (fun e => match e with PortL v => Some v | _ => None end) t.
Definition y_writes (t : list event) : list Z :=
  omap (fun e => match e with PortC v => Some v | _ => None end) t.
Definition samples_sent (t : list event) : list Z :=
  omap (fun e => match e with SerialPrintln v => Some v | _ => None end) t.
Definition acks (t : list event) : nat := length (List.filter is_ack t).

(** ** The number a payload denotes, in the words of the specification

    The decimal-digit characters of the payload, in order, up to the digit
    capacity of the command, read as a base-10 natural number; no digit at
    all reads as zero. *)

Definition digit_byte (c : ascii) : bool := isdigit (chr c).

Definition decimal_value (ds : list ascii) : Z :=
  fold_left (fun acc d => acc * 10 + (chr d - 48)) ds 0.

Definition payload_number (capacity : nat) (payload : list ascii) : Z :=
  decimal_value (take capacity (List.filter digit_byte payload)).

(** A frame: a tag byte, a payload without line feed, and the line feed. *)
Definition frame (tag : ascii) (payload : list ascii) : list ascii :=
  tag :: payload ++ [LF].

(** The actions of one sweep of a scan line (lines 136-144), for a line
    that starts with Y origin [y], dwell [d] and converter results
    [a r], [a (r+1)], ... *)
Definition sweep_events (y d : Z) (a : nat -> Z) (r : nat) : list event :=
  [PortC (to_byte y); Delay 1] ++
  flat_map (fun m => [PortL (Z.of_nat m); DelayMicroseconds (to_uint d);
                      AnalogRead (a (r + m)%nat)]) (seq 0 256).

(** The actions of sending the line (lines 150-153). *)
Definition send_events (a : nat -> Z) (r : nat) : list event :=
  flat_map (fun m => [SerialPrintln (a (r + m)%nat); DelayMicroseconds 50])
    (seq 0 256).

(** The actions of an IDLE step (lines 156-158). *)
Definition idle_events (a : nat -> Z) (r : nat) : list event :=
  [AnalogRead (a r); SerialPrintln (a r); Delay 10].

(** The samples of the line that starts after [r] conversions. *)
Definition line_samples (a : nat -> Z) (r : nat) : list Z :=
  map (fun m => a (r + m)%nat) (seq 0 256).

(** The four parameter-setting commands, with the tag byte, the digit
    buffer, the digit capacity, the documented ceiling and the configuration
    field of each. *)
Inductive param : Type := Px | Py | Pg | Pp.

Definition tag_of (p : param) : ascii :=
  match p with Px => "x" | Py => "y" | Pg => "g" | Pp => "p" end%char.

Definition maxDigit_of (p : param) : Z :=
  match p with
  | Px => maxDigitfx | Py => maxDigitfy | Pg => maxDigitgap
  | Pp => maxDigitpoint
  end.

Definition capacity (p : param) : nat :=
  match p with Px | Py | Pg => 3%nat | Pp => 5%nat end.

Definition buffer_of (p : param) (s : state) : list Z :=
  match p with
  | Px => inputfx s | Py => inputfy s | Pg => inputgap s
  | Pp => inputpoint s
  end.

Definition ceiling_of (p : param) : option Z :=
  match p with
  | Px => Some 255 | Py => Some 255 | Pg => Some 128 | Pp => None
  end.

Definition stored (p : param) (s : state) : Z :=
  match p with
  | Px => startX s | Py => startY s | Pg => gap s | Pp => delay_time s
  end.

(** The value a command stores for a parsed number [n]: the smaller of [n]
    and the ceiling, or [n] itself where there is no ceiling. *)
Definition ceiled (p : param) (n : Z) : Z :=
  match ceiling_of p with Some m => Z.min n m | None => n end.

(** The bytes that are command tags. *)
Definition is_tag (c : ascii) : bool :=
  existsb (fun t => (chr c =? chr t)) ["x"; "y"; "g"; "p"; "u"; "e"]%char.

(** Hiding what the [x] command writes and reads: the X origin, its digit
    buffer and the input still to come.  Two states with the same image
    agree on everything else: mode, Y origin, gap, dwell, the other
    buffers, the line buffer, both ports, the converter and the trace. *)
Definition hide_x (s : state) : state :=
  set_rx [] (set_inputfx [] (set_startX 0 s)).

(** Two input streams that are the same sequence of commands except for
    the payloads of their [x] frames. *)
Inductive x_variant : list ascii -> list ascii -> Prop :=
| xv_same (l : list ascii) : x_variant l l
| xv_x (pl1 pl2 r1 r2 : list ascii) :
    Forall (fun c => c <> LF) pl1 -> Forall (fun c => c <> LF) pl2 ->
    x_variant r1 r2 ->
    x_variant (frame "x" pl1 ++ r1) (frame "x" pl2 ++ r2)
| xv_x_open (l1 l2 : list ascii) :
    ~ In LF l1 -> ~ In LF l2 ->
    x_variant ("x"%char :: l1) ("x"%char :: l2)
| xv_frame (p : param) (pl r1 r2 : list ascii) :
    Forall (fun c => c <> LF) pl -> x_variant r1 r2 ->
    x_variant (frame (tag_of p) pl ++ r1) (frame (tag_of p) pl ++ r2)
| xv_byte (c : ascii) (r1 r2 : list ascii) :
    (forall p, c <> tag_of p) -> x_variant r1 r2 ->
    x_variant (c :: r1) (c :: r2).

(** Two states of two executions that differ only through the payloads of
    [x] frames, past and to come. *)
Definition x_related (s t : state) : Prop :=
  hide_x s = hide_x t /\ x_variant (rx s) (rx t).

(** Two results that are both a stall, or both a state, related by [R]. *)
Definition both (R : state -> state -> Prop) (o1 o2 : option state) : Prop :=
  match o1, o2 with
  | Some a, Some b => R a b
  | None, None => True
  | _, _ => False
  end.


(** A command line as a host sends it: the text and a line feed. *)
Definition cmd (text : string) : list ascii := bytes text ++ [LF].

(** The results of the conversions recorded in a trace. *)
Definition conversions (t : list event) : list Z :=
  omap (fun e => match e with AnalogRead v => Some v | _ => None end) t.

(** Every conversion made so far has been sent, in order, and nothing else
    has been sent as a sample. *)
Definition all_sent (s : state) : Prop :=
  length (fes s) = 256%nat /\
  conversions (trace s) = map (adc s) (seq 0 (adc_reads s)) /\
  samples_sent (trace s) = map (adc s) (seq 0 (adc_reads s)).

(** What a parameter command writes: its configuration field and its
    digit buffer. *)
Definition set_param (p : param) (v : Z) (buf : list Z) (s : state) : state :=
  match p with
  | Px => set_startX v (set_inputfx buf s)
  | Py => set_startY v (set_inputfy buf s)
  | Pg => set_gap v (set_inputgap buf s)
  | Pp => set_delay_time v (set_inputpoint buf s)
  end.

(** The ranges the globals and the port registers stay in. *)
Definition bounded (s : state) : Prop :=
  wf s /\ (direc s = 0 \/ direc s = 2) /\
  0 <= startX s <= 255 /\ 0 <= gap s <= 128 /\
  -32768 <= startY s <= 32767 /\ -32768 <= delay_time s <= 32767 /\
  0 <= PORTL s <= 255 /\ 0 <= PORTC s <= 255.

(** * Properties *)

(** ** Machine integers *)

Lemma chr_range c : 0 <= chr c < 256.
Proof. destruct c as [[] [] [] [] [] [] [] []]; vm_compute; split; congruence. Qed.

Lemma chr_inj c d : chr c = chr d -> c = d.
Proof.
  unfold chr. intros H. apply N2Z.inj in H.
  rewrite <- (ascii_N_embedding c), <- (ascii_N_embedding d). congruence.
Qed.

Lemma to_char_low z : 0 <= z < 128 -> to_char z = z.
Proof. unfold to_char. intros H. Z.div_mod_to_equations. lia. Qed.

Lemma to_char_high z : 128 <= z < 256 -> to_char z = z - 256.
Proof. unfold to_char. intros H. Z.div_mod_to_equations. lia. Qed.

Lemma to_char_chr_eq c k : 0 <= k < 128 -> to_char (chr c) = k <-> chr c = k.
Proof.
  intros Hk. pose proof (chr_range c) as Hc.
  destruct (Z_lt_dec (chr c) 128).
  - rewrite to_char_low by lia. tauto.
  - rewrite to_char_high by lia. lia.
Qed.

Lemma to_int_small z : -32768 <= z <= 32767 -> to_int z = z.
Proof. unfold to_int. intros H. Z.div_mod_to_equations. lia. Qed.

Lemma to_int_range z : -32768 <= to_int z <= 32767.
Proof. unfold to_int. Z.div_mod_to_equations. lia. Qed.

Lemma to_int_step a d : to_int (to_int a * 10 + d) = to_int (a * 10 + d).
Proof.
  unfold to_int.
  replace ((a + 32768) mod 65536 - 32768) with
    (a - 65536 * ((a + 32768) / 65536))
    by (pose proof (Z.div_mod (a + 32768) 65536); lia).
  replace ((a - 65536 * ((a + 32768) / 65536)) * 10 + d + 32768) with
    (a * 10 + d + 32768 + (- 10 * ((a + 32768) / 65536)) * 65536) by lia.
  now rewrite Z.mod_add by lia.
Qed.

Lemma to_int_mod_256 z : to_int z mod 256 = z mod 256.
Proof.
  unfold to_int.
  replace ((z + 32768) mod 65536 - 32768) with
    (z + (- 256 * ((z + 32768) / 65536)) * 256)
    by (pose proof (Z.div_mod (z + 32768) 65536); lia).
  now rewrite Z.mod_add by lia.
Qed.

Lemma to_byte_small z : 0 <= z < 256 -> to_byte z = z.
Proof. unfold to_byte. intros H. now apply Z.mod_small. Qed.

Lemma to_byte_range z : 0 <= to_byte z < 256.
Proof. unfold to_byte. apply Z.mod_pos_bound. lia. Qed.

Lemma clamp_min max v : clamp max v = Z.min v max.
Proof. unfold clamp. destruct (Z.ltb_spec max v); lia. Qed.

(** ** The accumulation loop and [atoi] *)

Lemma digit_byte_char c :
  digit_byte c = true ->
  to_char (chr c) = chr c /\ 48 <= chr c <= 57.
Proof.
  unfold digit_byte, isdigit. intros H.
  apply andb_true_iff in H as [H1 H2].
  apply Z.leb_le in H1. apply Z.leb_le in H2.
  split; [apply to_char_low|]; lia.
Qed.

Lemma digit_test_char c :
  (chr "0" <=? to_char (chr c)) && (to_char (chr c) <=? chr "9")
  = digit_byte c.
Proof.
  unfold digit_byte, isdigit. change (chr "0") with 48. change (chr "9") with 57.
  pose proof (chr_range c) as Hc.
  destruct (Z_lt_dec (chr c) 128).
  - now rewrite to_char_low by lia.
  - rewrite to_char_high by lia.
    transitivity false.
    + apply andb_false_iff. left. apply Z.leb_gt. lia.
    + symmetry. apply andb_false_iff. right. apply Z.leb_gt. lia.
Qed.

Lemma line_feed_test c : (to_char (chr c) =? chr LF) = true <-> c = LF.
Proof.
  rewrite Z.eqb_eq. change (chr LF) with 10.
  rewrite to_char_chr_eq by lia. split.
  - intros H. apply chr_inj. exact H.
  - intros ->. reflexivity.
Qed.

(** What the loop leaves behind: from index [j] on, the buffer receives the
    first [maxDigit - j] digits of the payload, and [j] counts them. *)
Lemma read_digits_spec (maxDigit : nat) (payload : list ascii) :
  forall (input : list Z) (j : nat) (rest : list ascii),
  Forall (fun c => c <> LF) payload ->
  (j <= maxDigit)%nat -> (maxDigit < length input)%nat ->
  (maxDigit < 256)%nat ->
  let ds := take (maxDigit - j) (List.filter digit_byte payload) in
  exists input',
    read_digits (Z.of_nat maxDigit) input (Z.of_nat j) (payload ++ LF :: rest)
      = Some (input', Z.of_nat (j + length ds), rest) /\
    length input' = length input /\
    take (j + length ds) input' = take j input ++ map chr ds.
Proof.
  induction payload as [|c payload IH]; intros input j rest Hlf Hj Hlen Hmax ds.
  - subst ds. simpl. rewrite take_nil. simpl.
    exists input. rewrite Nat.add_0_r, app_nil_r. auto.
  - inversion Hlf as [|? ? Hc Hlf']; subst.
    simpl app. cbn [read_digits].
    destruct (to_char (chr c) =? chr LF) eqn:E.
    { apply line_feed_test in E. contradiction. }
    rewrite digit_test_char.
    subst ds. cbn [List.filter].
    destruct (digit_byte c) eqn:Ed; cbn [andb].
    + destruct (Z.ltb_spec (Z.of_nat j) (Z.of_nat maxDigit)) as [Hlt|Hge].
      * apply digit_byte_char in Ed as [Ed _]. rewrite Ed.
        rewrite Nat2Z.id.
        replace (to_byte (Z.of_nat j + 1)) with (Z.of_nat (S j))
          by (rewrite to_byte_small; lia).
        destruct (IH (<[j := chr c]> input) (S j) rest Hlf') as (input' & Hr & Hl & Ht);
          [lia | rewrite length_insert; lia | lia |].
        replace (maxDigit - j)%nat with (S (maxDigit - S j)) by lia.
        cbn [take length].
        exists input'. rewrite Nat.add_succ_r. cbn [Nat.add] in *.
        rewrite Hr. split; [reflexivity|]. split.
        { rewrite Hl. apply length_insert. }
        rewrite Ht. cbn [map].
        rewrite (take_S_r _ j (chr c)) by (apply list_lookup_insert_eq; lia).
        rewrite take_insert_ge by lia.
        now rewrite <- app_assoc.
      * replace (maxDigit - j)%nat with 0%nat in * by lia.
        destruct (IH input j rest Hlf') as (input' & Hr & Hl & Ht); [lia..|].
        replace (maxDigit - j)%nat with 0%nat in * by lia.
        rewrite take_0 in *. exists input'. auto.
    + destruct (IH input j rest Hlf') as (input' & Hr & Hl & Ht); [lia..|].
      exists input'. auto.
Qed.

Lemma atoi_digits_spec (ds : list ascii) :
  forall (tail : list Z) (acc : Z),
  Forall (fun d => digit_byte d = true) ds ->
  atoi_digits (map chr ds ++ 0 :: tail) (to_int acc)
  = to_int (fold_left (fun a d => a * 10 + (chr d - 48)) ds acc).
Proof.
  induction ds as [|d ds IH]; intros tail acc Hds.
  - reflexivity.
  - inversion Hds as [|? ? Hd Hds']; subst. simpl.
    unfold digit_byte in Hd. rewrite Hd.
    rewrite to_int_step. now apply IH.
Qed.

Lemma atoi_buffer (ds : list ascii) (tail : list Z) :
  Forall (fun d => digit_byte d = true) ds ->
  atoi (map chr ds ++ 0 :: tail) = to_int (decimal_value ds).
Proof.
  intros Hds. unfold atoi, decimal_value.
  rewrite <- (atoi_digits_spec ds tail 0 Hds).
  change (to_int 0) with 0.
  destruct ds as [|d ds]; [reflexivity|].
  inversion Hds as [|? ? Hd _]; subst.
  apply digit_byte_char in Hd as [_ Hd]. cbn [map app skip_space].
  assert (isspace (chr d) = false) as ->.
  { unfold isspace. apply orb_false_iff. split.
    - apply Z.eqb_neq. lia.
    - apply andb_false_iff. right. apply Z.leb_gt. lia. }
  assert ((chr d =? 45) = false) as -> by (apply Z.eqb_neq; lia).
  assert ((chr d =? 43) = false) as -> by (apply Z.eqb_neq; lia).
  reflexivity.
Qed.

Lemma filter_digits_Forall (l : list ascii) (n : nat) :
  Forall (fun d => digit_byte d = true) (take n (List.filter digit_byte l)).
Proof.
  apply Forall_take. apply Forall_forall. intros x Hx.
  apply list_elem_of_In, filter_In in Hx. tauto.
Qed.

(** The number read by a parameter command: the payload's number, as an
    [int]. *)
Lemma read_number_spec (maxDigit : nat) (input : list Z)
    (payload rest : list ascii) :
  Forall (fun c => c <> LF) payload ->
  (maxDigit < length input)%nat -> (maxDigit < 256)%nat ->
  exists input',
    read_number (Z.of_nat maxDigit) input (payload ++ LF :: rest)
      = Some (to_int (payload_number maxDigit payload), input', rest) /\
    length input' = length input.
Proof.
  intros Hlf Hlen Hmax.
  destruct (read_digits_spec maxDigit payload input 0 rest Hlf)
    as (input1 & Hr & Hl & Ht); [lia..|].
  rewrite Nat.sub_0_r in *. cbn [Nat.add take app] in *.
  set (ds := take maxDigit (List.filter digit_byte payload)) in *.
  assert (length ds <= maxDigit)%nat as Hds
    by (subst ds; rewrite length_take; lia).
  unfold read_number. change (Z.of_nat 0) with 0 in Hr. rewrite Hr.
  cbn. rewrite Nat2Z.id.
  exists (<[length ds := 0]> input1). split; [|rewrite length_insert; lia].
  do 2 f_equal. f_equal.
  rewrite insert_take_drop by lia. rewrite Ht.
  apply atoi_buffer. apply filter_digits_Forall.
Qed.

Lemma decimal_fold_bound (ds : list ascii) :
  forall acc, Forall (fun d => digit_byte d = true) ds -> 0 <= acc ->
  0 <= fold_left (fun a d => a * 10 + (chr d - 48)) ds acc
    <= (acc + 1) * 10 ^ Z.of_nat (length ds) - 1.
Proof.
  induction ds as [|d ds IH]; intros acc Hds Hacc.
  - simpl. lia.
  - inversion Hds as [|? ? Hd Hds']; subst.
    apply digit_byte_char in Hd as [_ Hd].
    cbn [fold_left length].
    specialize (IH (acc * 10 + (chr d - 48)) Hds' ltac:(lia)).
    rewrite Nat2Z.inj_succ, Z.pow_succ_r by lia.
    assert (0 < 10 ^ Z.of_nat (length ds)) by (apply Z.pow_pos_nonneg; lia).
    nia.
Qed.

Lemma payload_number_bound (capacity : nat) (payload : list ascii) :
  0 <= payload_number capacity payload < 10 ^ Z.of_nat capacity.
Proof.
  unfold payload_number, decimal_value.
  pose proof (decimal_fold_bound _ 0 (filter_digits_Forall payload capacity)
                ltac:(lia)) as H.
  assert (10 ^ Z.of_nat (length (take capacity (List.filter digit_byte payload)))
          <= 10 ^ Z.of_nat capacity).
  { apply Z.pow_le_mono_r; [lia|]. rewrite length_take. lia. }
  lia.
Qed.

(** ** The two loops of a scan line *)

Lemma state_eq (s t : state) :
  direc s = direc t -> startX s = startX t -> startY s = startY t ->
  gap s = gap t -> delay_time s = delay_time t ->
  inputfx s = inputfx t -> inputfy s = inputfy t ->
  inputgap s = inputgap t -> inputpoint s = inputpoint t ->
  fes s = fes t -> PORTL s = PORTL t -> PORTC s = PORTC t ->
  rx s = rx t -> adc s = adc t -> adc_reads s = adc_reads t ->
  trace s = trace t -> s = t.
Proof. destruct s, t; simpl; intros; subst; reflexivity. Qed.

Section ForLoop.
Variable body : Z -> state -> state.

(** A projection that the body leaves alone is left alone by the loop. *)
Lemma for_loop_frame {A : Type} (f : state -> A) :
  (forall i s, f (body i s) = f s) ->
  forall n i s, f (for_loop n i body s) = f s.
Proof.
  intros Hb. induction n as [|n IH]; intros i s; simpl; [reflexivity|].
  now rewrite IH.
Qed.

(** A change of state that commutes with the body commutes with the
    loop. *)
Lemma for_loop_commute (g : state -> state) :
  (forall i s, body i (g s) = g (body i s)) ->
  forall n i s, for_loop n i body (g s) = g (for_loop n i body s).
Proof.
  intros Hb. induction n as [|n IH]; intros i s; simpl; [reflexivity|].
  now rewrite Hb, IH.
Qed.
End ForLoop.

Lemma flat_map_shift {A : Type} (f : nat -> list A) (n : nat) :
  flat_map f (seq 1 n) = flat_map (fun m => f (S m)) (seq 0 n).
Proof.
  rewrite <- seq_shift. rewrite !flat_map_concat_map, map_map. reflexivity.
Qed.

Lemma flat_map_ext_seq {A : Type} (f g : nat -> list A) (n : nat) :
  (forall m, (m < n)%nat -> f m = g m) ->
  flat_map f (seq 0 n) = flat_map g (seq 0 n).
Proof.
  intros H. rewrite !flat_map_concat_map. f_equal.
  apply map_ext_in. intros m Hm. apply in_seq in Hm. apply H. lia.
Qed.

Lemma sample_loop_spec (n : nat) :
  forall (k : nat) (s : state),
  (k + n <= length (fes s))%nat ->
  let s' := for_loop n (Z.of_nat k) sample_body s in
  trace s' = trace s ++
    flat_map (fun m => [PortL (to_byte (Z.of_nat (k + m)));
                        DelayMicroseconds (to_uint (delay_time s));
                        AnalogRead (adc s (adc_reads s + m)%nat)]) (seq 0 n) /\
  adc_reads s' = (adc_reads s + n)%nat /\
  length (fes s') = length (fes s) /\
  take (k + n) (fes s') =
    take k (fes s) ++ map (fun m => adc s (adc_reads s + m)%nat) (seq 0 n) /\
  PORTL s' = match n with O => PORTL s | S p => to_byte (Z.of_nat (k + p)) end.
Proof.
  induction n as [|n IH]; intros k s Hlen s'.
  - subst s'. simpl. rewrite !app_nil_r, !Nat.add_0_r. auto.
  - subst s'. cbn [for_loop].
    replace (Z.of_nat k + 1) with (Z.of_nat (S k)) by lia.
    destruct (IH (S k) (sample_body (Z.of_nat k) s)) as (Ht & Hr & Hl & Hf & Hp).
    { cbn. rewrite length_insert. lia. }
    rewrite Ht, Hr, Hl, Hp. clear IH Ht Hr Hl Hp.
    split; [|split; [|split; [|split]]].
    + cbn [seq flat_map]. rewrite flat_map_shift. cbn.
      rewrite <- !app_assoc. cbn. rewrite !Nat.add_0_r.
      do 4 f_equal. apply flat_map_ext_seq. intros m _.
      now rewrite !Nat.add_succ_r.
    + cbn. lia.
    + cbn. now rewrite length_insert.
    + replace (k + S n)%nat with (S k + n)%nat by lia. rewrite Hf.
      cbn [seq map]. rewrite <- seq_shift, map_map. cbn.
      rewrite Nat2Z.id, Nat.add_0_r.
      rewrite (take_S_r _ k (adc s (adc_reads s)))
        by (apply list_lookup_insert_eq; lia).
      rewrite take_insert_ge by lia. rewrite <- app_assoc. cbn.
      do 2 f_equal. apply map_ext. intros m. now rewrite Nat.add_succ_r.
    + destruct n; [now rewrite Nat.add_0_r|]. now rewrite Nat.add_succ_r.
Qed.

Lemma send_loop_trace (n : nat) :
  forall (k : nat) (s : state),
  trace (for_loop n (Z.of_nat k) send_body s) = trace s ++
    flat_map (fun m => [SerialPrintln (default 0 (fes s !! (k + m)%nat));
                        DelayMicroseconds 50]) (seq 0 n).
Proof.
  induction n as [|n IH]; intros k s.
  - simpl. now rewrite app_nil_r.
  - cbn [for_loop].
    replace (Z.of_nat k + 1) with (Z.of_nat (S k)) by lia.
    rewrite IH. cbn [seq flat_map]. rewrite flat_map_shift. cbn.
    rewrite <- !app_assoc. cbn. rewrite Nat2Z.id, Nat.add_0_r.
    do 3 f_equal. apply flat_map_ext_seq. intros m _.
    now rewrite !Nat.add_succ_r.
Qed.

Ltac frame_of body :=
  match goal with
  | |- ?f (for_loop ?n ?i body ?s) = _ =>
      rewrite (for_loop_frame body f) by reflexivity; reflexivity
  end.

(** The sweep of a scan line, as an equation on the whole state. *)
Lemma scan_line_eq (s : state) :
  length (fes s) = 256%nat ->
  scan_line s =
  mkState (direc s) (startX s) (startY s) (gap s) (delay_time s)
    (inputfx s) (inputfy s) (inputgap s) (inputpoint s)
    (line_samples (adc s) (adc_reads s)) 255 (to_byte (startY s))
    (rx s) (adc s) (adc_reads s + 256)%nat
    (trace s ++ sweep_events (startY s) (delay_time s) (adc s) (adc_reads s)).
Proof.
  intros Hlen. unfold scan_line.
  set (s2 := emit (Delay 1) (write_PORTC (startY s) s)).
  destruct (sample_loop_spec 256 0 s2) as (Ht & Hr & Hl & Hf & Hp);
    [subst s2; cbn; lia|].
  change (Z.of_nat 0) with 0 in *.
  apply state_eq; cbn [direc startX startY gap delay_time inputfx inputfy
    inputgap inputpoint fes PORTL PORTC rx adc adc_reads trace];
    try frame_of sample_body.
  - rewrite take_ge in Hf by (rewrite Hl; subst s2; cbn; lia).
    rewrite Hf. reflexivity.
  - rewrite Hp. reflexivity.
  - exact Hr.
  - rewrite Ht. subst s2. unfold sweep_events. cbn [trace emit write_PORTC
      set_trace set_PORTC delay_time adc adc_reads].
    rewrite <- !app_assoc. cbn [app].
    apply (f_equal (fun t => trace s ++ PortC (to_byte (startY s)) :: Delay 1 :: t)).
    apply flat_map_ext_seq. intros m Hm. cbn [Nat.add].
    rewrite to_byte_small by lia. reflexivity.
Qed.

Lemma line_samples_lookup (a : nat -> Z) (r m : nat) :
  (m < 256)%nat -> line_samples a r !! m = Some (a (r + m)%nat).
Proof.
  intros Hm. unfold line_samples.
  rewrite list_lookup_fmap, lookup_seq_lt by lia. reflexivity.
Qed.

Lemma length_line_samples (a : nat -> Z) (r : nat) :
  length (line_samples a r) = 256%nat.
Proof. unfold line_samples. now rewrite length_map, length_seq. Qed.

(** Sending a line only extends the trace. *)
Lemma send_line_eq (s : state) (a : nat -> Z) (r : nat) :
  fes s = line_samples a r ->
  send_line s = set_trace (trace s ++ send_events a r) s.
Proof.
  intros Hfes. unfold send_line.
  pose proof (send_loop_trace 256 0 s) as Ht. change (Z.of_nat 0) with 0 in Ht.
  apply state_eq; cbn [direc startX startY gap delay_time inputfx inputfy
    inputgap inputpoint fes PORTL PORTC rx adc adc_reads trace set_trace];
    try frame_of send_body.
  rewrite Ht. f_equal. unfold send_events.
  apply flat_map_ext_seq. intros m Hm. cbn [Nat.add].
  rewrite Hfes, line_samples_lookup by lia. reflexivity.
Qed.

(** One RUN step, as an equation on the whole state. *)
Lemma run_step_eq (s : state) :
  length (fes s) = 256%nat ->
  run_step s =
  mkState (direc s) (startX s) (to_int (startY s + gap s)) (gap s)
    (delay_time s) (inputfx s) (inputfy s) (inputgap s) (inputpoint s)
    (line_samples (adc s) (adc_reads s)) 255 (to_byte (startY s))
    (rx s) (adc s) (adc_reads s + 256)%nat
    (trace s ++ sweep_events (startY s) (delay_time s) (adc s) (adc_reads s)
       ++ send_events (adc s) (adc_reads s)).
Proof.
  intros Hlen. unfold run_step.
  rewrite (send_line_eq _ (adc s) (adc_reads s))
    by (rewrite scan_line_eq by exact Hlen; reflexivity).
  rewrite scan_line_eq by exact Hlen.
  cbn. now rewrite <- app_assoc.
Qed.

Lemma idle_step_eq (s : state) :
  idle_step s =
  set_trace (trace s ++ idle_events (adc s) (adc_reads s))
    (set_adc_reads (S (adc_reads s)) s).
Proof.
  unfold idle_step, analogRead, emit. cbn.
  rewrite <- !app_assoc. reflexivity.
Qed.

Lemma wf_run_step (s : state) : wf s -> wf (run_step s).
Proof.
  intros (H1 & H2 & H3 & H4 & H5). rewrite run_step_eq by exact H5.
  unfold wf. cbn [inputfx inputfy inputgap inputpoint fes].
  rewrite length_line_samples. auto.
Qed.

Lemma wf_idle_step (s : state) : wf s -> wf (idle_step s).
Proof. intros H. rewrite idle_step_eq. exact H. Qed.

Lemma wf_scan_engine (s : state) : wf s -> wf (scan_engine s).
Proof.
  intros H. unfold scan_engine.
  destruct (direc s =? 0); [now apply wf_run_step | now apply wf_idle_step].
Qed.

(** ** The command interpreter *)

Lemma command_interpreter_cons (s : state) (c : ascii) (rest : list ascii) :
  rx s = c :: rest ->
  command_interpreter s =
  s2 ← switch_val (to_char (chr c)) (set_rx rest s); Some (acknowledge s2).
Proof.
  intros H. unfold command_interpreter, Serial_available, interpret, Serial_read.
  rewrite H. reflexivity.
Qed.

Lemma command_interpreter_nil (s : state) :
  rx s = [] -> command_interpreter s = Some s.
Proof.
  intros H. unfold command_interpreter, Serial_available. now rewrite H.
Qed.

Lemma tag_test (c t : ascii) :
  0 <= chr t < 128 -> (to_char (chr c) =? chr t) = (chr c =? chr t).
Proof.
  intros Ht. apply eq_true_iff_eq. rewrite !Z.eqb_eq.
  now apply to_char_chr_eq.
Qed.

Lemma switch_val_other (c : ascii) (s : state) :
  is_tag c = false -> switch_val (to_char (chr c)) s = Some s.
Proof.
  unfold is_tag. cbn [existsb]. intros H.
  repeat (apply orb_false_iff in H as [? H]).
  unfold switch_val.
  rewrite !tag_test by (vm_compute; split; congruence).
  repeat match goal with E : (_ =? _) = false |- _ => rewrite E; clear E end.
  reflexivity.
Qed.

Lemma switch_val_param (p : param) (s : state) :
  switch_val (to_char (chr (tag_of p))) s =
  '(n, buf, rest) ← read_number (maxDigit_of p) (buffer_of p s) (rx s);
  Some (match p with
        | Px => set_startX (clamp maxfx n) (set_inputfx buf (set_rx rest s))
        | Py => set_startY (clamp maxfy n) (set_inputfy buf (set_rx rest s))
        | Pg => set_gap (clamp maxgap n) (set_inputgap buf (set_rx rest s))
        | Pp => set_delay_time n (set_inputpoint buf (set_rx rest s))
        end).
Proof.
  destruct p; cbn [tag_of maxDigit_of buffer_of]; unfold switch_val;
    rewrite !tag_test by (vm_compute; split; congruence);
    cbn [chr N_of_ascii N_of_digits Z.of_N N.add N.mul Pos.add Pos.mul
         Z.eqb Pos.eqb];
    unfold case_x, case_y, case_g, case_p;
    destruct (read_number _ _ _) as [[[n buf] rest]|]; reflexivity.
Qed.

Lemma read_digits_length (maxDigit : Z) (stream : list ascii) :
  forall input j input' j' rest,
  read_digits maxDigit input j stream = Some (input', j', rest) ->
  length input' = length input.
Proof.
  induction stream as [|c stream IH]; intros input j input' j' rest H.
  - discriminate.
  - cbn [read_digits] in H.
    destruct (to_char (chr c) =? chr LF); [congruence|].
    destruct ((chr "0" <=? to_char (chr c)) && (to_char (chr c) <=? chr "9")
              && (j <? maxDigit)).
    + apply IH in H. now rewrite length_insert in H.
    + now apply IH in H.
Qed.

Lemma read_number_length (maxDigit : Z) (input : list Z) (stream : list ascii)
    (n : Z) (buf : list Z) (rest : list ascii) :
  read_number maxDigit input stream = Some (n, buf, rest) ->
  length buf = length input.
Proof.
  unfold read_number. intros H.
  destruct (read_digits maxDigit input 0 stream) as [[[input1 j] r]|] eqn:E;
    [|discriminate].
  cbn in H. injection H as _ <- _.
  rewrite length_insert. eapply read_digits_length, E.
Qed.

Lemma wf_buffer (p : param) (s : state) :
  wf s -> (capacity p < length (buffer_of p s))%nat /\
          maxDigit_of p = Z.of_nat (capacity p).
Proof. intros (H1 & H2 & H3 & H4 & _). destruct p; cbn; split; (lia || reflexivity). Qed.

Lemma stored_after (p : param) (n : Z) (buf : list Z) (rest : list ascii)
    (s : state) :
  stored p (acknowledge
    match p with
    | Px => set_startX (clamp maxfx n) (set_inputfx buf (set_rx rest s))
    | Py => set_startY (clamp maxfy n) (set_inputfy buf (set_rx rest s))
    | Pg => set_gap (clamp maxgap n) (set_inputgap buf (set_rx rest s))
    | Pp => set_delay_time n (set_inputpoint buf (set_rx rest s))
    end) = ceiled p n.
Proof.
  unfold acknowledge, ceiled.
  destruct p; cbn; destruct (direc s =? 0); cbn;
    rewrite ?clamp_min; reflexivity.
Qed.

(** A parameter command, given what [read_number] returns on the bytes
    after the tag. *)
Lemma command_param (p : param) (s : state) (stream : list ascii)
    (n : Z) (buf : list Z) (rest : list ascii) :
  rx s = tag_of p :: stream ->
  read_number (maxDigit_of p) (buffer_of p s) stream = Some (n, buf, rest) ->
  exists s', command_interpreter s = Some s' /\
             stored p s' = ceiled p n /\ rx s' = rest /\
             direc s' = direc s /\ PORTL s' = PORTL s /\ PORTC s' = PORTC s.
Proof.
  intros Hrx Hread.
  rewrite (command_interpreter_cons s _ _ Hrx), switch_val_param.
  replace (buffer_of p (set_rx stream s)) with (buffer_of p s)
    by (destruct p; reflexivity).
  cbn [rx set_rx]. rewrite Hread. cbn.
  eexists. split; [reflexivity|]. split; [apply stored_after|].
  unfold acknowledge. destruct p; cbn; destruct (direc s =? 0); cbn; auto.
Qed.

(** [C2] A parameter command stores the parsed number reduced to the
    command's ceiling and never raises it: [x] and [y] store the smaller of
    the number and 255, [g] the smaller of the number and 128, and [p] the
    number itself.  The parsed number [n] is the result of [atoi] on the
    digit buffer. *)
Theorem parameter_ceiling (p : param) (s : state) (stream : list ascii)
    (n : Z) (buf : list Z) (rest : list ascii) :
  rx s = tag_of p :: stream ->
  read_number (maxDigit_of p) (buffer_of p s) stream = Some (n, buf, rest) ->
  exists s',
    command_interpreter s = Some s' /\
    stored p s' = match p with
                  | Px | Py => Z.min n 255
                  | Pg => Z.min n 128
                  | Pp => n
                  end /\
    stored p s' <= n /\
    match ceiling_of p with Some m => stored p s' <= m | None => True end.
Proof.
  intros Hrx Hread.
  destruct (command_param p s stream n buf rest Hrx Hread)
    as (s' & Hs' & Hst & _).
  exists s'. split; [exact Hs'|]. rewrite Hst. unfold ceiled.
  destruct p; cbn; repeat split; lia.
Qed.

Lemma parameter_ceiling_witness :
  (exists s', command_interpreter
                (initial (frame "x" (bytes "300")) (fun _ => 0)) = Some s' /\
              stored Px s' = 255) /\
  (exists s', command_interpreter
                (initial (frame "g" (bytes "200")) (fun _ => 0)) = Some s' /\
              stored Pg s' = 128) /\
  (exists s', command_interpreter
                (initial (frame "y" (bytes "77")) (fun _ => 0)) = Some s' /\
              stored Py s' = 77) /\
  (exists s', command_interpreter
                (initial (frame "p" (bytes "4700")) (fun _ => 0)) = Some s' /\
              stored Pp s' = 4700).
Proof.
  repeat split.
  - destruct (parameter_ceiling Px
               (initial (frame "x" (bytes "300")) (fun _ => 0))
               (bytes "300" ++ [LF]) 300 [51; 48; 48; 0] [])
      as (s' & H1 & H2 & _); [reflexivity | reflexivity |].
    exists s'. split; [exact H1 | exact H2].
  - destruct (parameter_ceiling Pg
               (initial (frame "g" (bytes "200")) (fun _ => 0))
               (bytes "200" ++ [LF]) 200 [50; 48; 48; 0] [])
      as (s' & H1 & H2 & _); [reflexivity | reflexivity |].
    exists s'. split; [exact H1 | exact H2].
  - destruct (parameter_ceiling Py
               (initial (frame "y" (bytes "77")) (fun _ => 0))
               (bytes "77" ++ [LF]) 77 [55; 55; 0; 0] [])
      as (s' & H1 & H2 & _); [reflexivity | reflexivity |].
    exists s'. split; [exact H1 | exact H2].
  - destruct (parameter_ceiling Pp
               (initial (frame "p" (bytes "4700")) (fun _ => 0))
               (bytes "4700" ++ [LF]) 4700 [52; 55; 48; 48; 0; 0] [])
      as (s' & H1 & H2 & _); [reflexivity | reflexivity |].
    exists s'. split; [exact H1 | exact H2].
Defined.

(** [C3], as stated, fails for [p]: the five digits of [p99999] denote
    99999, but the number is parsed into an [int], which holds at most
    32767; the dwell stored is -31073. *)
Lemma parsed_number_counterexample :
  payload_number (capacity Pp) (bytes "99999") = 99999 /\
  read_number (maxDigit_of Pp) (replicate 6 0) (bytes "99999" ++ [LF])
    = Some (-31073, [57; 57; 57; 57; 57; 0], []) /\
  (stored Pp <$> command_interpreter
     (initial (frame "p" (bytes "99999")) (fun _ => 0))) = Some (-31073) /\
  -31073 <> payload_number (capacity Pp) (bytes "99999").
Proof. repeat split; vm_compute; congruence. Qed.

(** [C3], amended.  For a parameter command and a payload without line
    feed followed by a line feed, the parsed number is the number denoted
    by the payload's digits, in order, up to the digit capacity (3 for
    [x], [y], [g]; 5 for [p]), all other bytes being discarded and no digit
    giving zero, whenever that number fits an [int] (is at most 32767);
    this is always so for [x], [y] and [g].  In general the parsed number
    is that number reduced to the 16 bits of an [int]. *)
Theorem parsed_number (p : param) (s : state) (payload rest : list ascii) :
  wf s -> Forall (fun c => c <> LF) payload ->
  let v := payload_number (capacity p) payload in
  exists buf,
    read_number (maxDigit_of p) (buffer_of p s) (payload ++ LF :: rest)
      = Some (to_int v, buf, rest) /\
    (v <= 32767 -> to_int v = v) /\
    (p <> Pp -> to_int v = v) /\
    (List.filter digit_byte payload = [] -> to_int v = 0).
Proof.
  intros Hwf Hlf v.
  destruct (wf_buffer p s Hwf) as [Hlen Hmax]. rewrite Hmax.
  destruct (read_number_spec (capacity p) (buffer_of p s) payload rest Hlf Hlen)
    as (buf & Hread & _); [destruct p; cbn; lia|].
  exists buf. split; [exact Hread|].
  pose proof (payload_number_bound (capacity p) payload) as Hb. fold v in Hb.
  split; [|split].
  - intros Hv. apply to_int_small. lia.
  - intros Hp. apply to_int_small.
    assert (capacity p = 3%nat) as E by (destruct p; congruence || reflexivity).
    rewrite E in Hb. change (10 ^ Z.of_nat 3) with 1000 in Hb. lia.
  - intros Hnil. subst v. unfold payload_number. rewrite Hnil, take_nil.
    reflexivity.
Qed.

Lemma parsed_number_total (p : param) (s : state) (payload rest : list ascii) :
  wf s -> Forall (fun c => c <> LF) payload ->
  exists buf,
    read_number (maxDigit_of p) (buffer_of p s) (payload ++ LF :: rest)
      = Some (to_int (payload_number (capacity p) payload), buf, rest).
Proof.
  intros Hwf Hlf.
  destruct (wf_buffer p s Hwf) as [Hlen Hmax]. rewrite Hmax.
  destruct (read_number_spec (capacity p) (buffer_of p s) payload rest Hlf Hlen)
    as (buf & Hread & _); [destruct p; cbn; lia|].
  exists buf. exact Hread.
Qed.

Lemma parsed_number_witness :
  exists buf,
    read_number (maxDigit_of Px) (replicate 4 0) (bytes "1a2" ++ LF :: [])
      = Some (12, buf, []).
Proof.
  destruct (parsed_number Px (initial [] (fun _ => 0)) (bytes "1a2") [])
    as (buf & H & _).
  - cbn. repeat split; reflexivity.
  - repeat constructor; discriminate.
  - exists buf. exact H.
Defined.

Example parse_x1a2 :
  (config <$> command_interpreter
     (initial (frame "x" (bytes "1a2")) (fun _ => 0)))
  = Some (2, 12, 0, 0, 1400).
Proof. reflexivity. Qed.

Example parse_empty :
  (config <$> command_interpreter
     (set_startX 7 (initial (frame "x" (bytes "ab")) (fun _ => 0))))
  = Some (2, 0, 0, 0, 1400).
Proof. reflexivity. Qed.

Example parse_p4700 :
  (config <$> command_interpreter
     (initial (frame "p" (bytes "4700")) (fun _ => 0)))
  = Some (2, 0, 0, 0, 4700).
Proof. reflexivity. Qed.

(** A whole parameter frame is consumed and its number stored; the
    interpreter stalls only when no line feed arrives. *)
Lemma parameter_frame (p : param) (s : state) (payload rest : list ascii) :
  wf s -> Forall (fun c => c <> LF) payload ->
  rx s = frame (tag_of p) payload ++ rest ->
  exists s', command_interpreter s = Some s' /\
             stored p s' =
               ceiled p (to_int (payload_number (capacity p) payload)) /\
             rx s' = rest /\ direc s' = direc s.
Proof.
  intros Hwf Hlf Hrx.
  destruct (parsed_number_total p s payload rest Hwf Hlf) as (buf & Hread).
  unfold frame in Hrx. cbn [app] in Hrx. rewrite <- app_assoc in Hrx.
  destruct (command_param p s _ _ buf rest Hrx Hread)
    as (s' & H1 & H2 & H3 & H4 & _).
  exists s'. auto.
Qed.

Lemma command_e (s : state) (rest : list ascii) :
  rx s = "e"%char :: rest ->
  command_interpreter s =
  Some (set_trace (trace s ++ [PortL 0; PortC 0])
          (set_PORTC 0 (set_PORTL 0 (set_direc 2 (set_rx rest s))))).
Proof.
  intros Hrx. rewrite (command_interpreter_cons s _ _ Hrx).
  change (switch_val (to_char (chr "e")) (set_rx rest s))
    with (Some (case_e (set_rx rest s))).
  cbn [mbind option_bind]. f_equal.
  unfold acknowledge, case_e, write_PORTC, write_PORTL, emit.
  cbn [direc trace set_trace set_PORTC set_PORTL set_direc set_rx Z.eqb].
  now rewrite <- app_assoc.
Qed.

(** [C6] The command [e] sets the mode to IDLE ([direc = 2]) and writes
    zero to the X bus and to the Y bus within the interpreter step, before
    the scan engine runs; nothing else changes but the consumed byte.  When
    the mode is already IDLE the configuration is unchanged, and a second
    [e] leaves configuration and buses as the first one did. *)
Theorem e_command (s : state) (rest : list ascii) :
  rx s = "e"%char :: rest ->
  exists s',
    command_interpreter s = Some s' /\
    s' = set_trace (trace s ++ [PortL 0; PortC 0])
           (set_PORTC 0 (set_PORTL 0 (set_direc 2 (set_rx rest s)))) /\
    direc s' = 2 /\ PORTL s' = 0 /\ PORTC s' = 0 /\
    (direc s = 2 -> config s' = config s) /\
    (forall rest' s'',
       command_interpreter (set_rx ("e"%char :: rest') s') = Some s'' ->
       config s'' = config s' /\ PORTL s'' = PORTL s' /\
       PORTC s'' = PORTC s' /\
       trace s'' = trace s' ++ [PortL 0; PortC 0]).
Proof.
  intros Hrx. rewrite (command_e s rest Hrx).
  eexists. split; [reflexivity|]. split; [reflexivity|].
  split; [reflexivity|]. split; [reflexivity|]. split; [reflexivity|].
  split.
  - intros Hd. unfold config. cbn [direc startX startY gap delay_time
      set_trace set_PORTC set_PORTL set_direc set_rx]. now rewrite Hd.
  - intros rest' s'' H.
    rewrite (command_e (set_rx _ _) rest' eq_refl) in H.
    injection H as <-. unfold config.
    cbn [direc startX startY gap delay_time PORTL PORTC trace
         set_trace set_PORTC set_PORTL set_direc set_rx].
    repeat split.
Qed.

Lemma e_command_witness :
  exists s',
    command_interpreter (initial ["e"%char] (fun _ => 0)) = Some s' /\
    config s' = (2, 0, 0, 0, 1400) /\ PORTL s' = 0 /\ PORTC s' = 0.
Proof.
  destruct (e_command (initial ["e"%char] (fun _ => 0)) [] eq_refl)
    as (s' & H1 & _ & H3 & H4 & H5 & H6 & _).
  exists s'. split; [exact H1|]. split; [exact (H6 eq_refl)|].
  split; [exact H4 | exact H5].
Defined.

(** [C9] A tag byte other than [x], [y], [g], [p], [u], [e] is consumed;
    the configuration and both buses stay as they were; and in RUN mode the
    acknowledgement byte [a] is still written.  The line feed is such a
    byte, and the commands [u] and [e] leave the line feed of their frame
    in the stream, to be read as a tag by a later iteration. *)
Theorem unknown_tag (s : state) (c : ascii) (rest : list ascii) :
  rx s = c :: rest -> is_tag c = false ->
  exists s',
    command_interpreter s = Some s' /\
    rx s' = rest /\ config s' = config s /\
    PORTL s' = PORTL s /\ PORTC s' = PORTC s /\
    List.filter is_port (trace s') = List.filter is_port (trace s) /\
    trace s' = trace s ++ (if direc s =? 0 then [SerialPrint "a"] else []) /\
    s' = acknowledge (set_rx rest s) /\
    is_tag LF = false /\
    (forall (t : state) (more : list ascii),
       rx t = "u"%char :: LF :: more \/ rx t = "e"%char :: LF :: more ->
       rx <$> command_interpreter t = Some (LF :: more)).
Proof.
  intros Hrx Htag. rewrite (command_interpreter_cons s _ _ Hrx).
  rewrite switch_val_other by exact Htag.
  eexists. split; [reflexivity|].
  split; [|split; [|split; [|split; [|split; [|split; [|split; [|split]]]]]]].
  8: reflexivity.
  8: { intros t more [Ht|Ht].
       - rewrite (command_interpreter_cons t _ _ Ht).
         change (switch_val (to_char (chr "u")) (set_rx (LF :: more) t))
           with (Some (case_u (set_rx (LF :: more) t))).
         cbn [mbind option_bind fmap option_fmap option_map].
         unfold acknowledge, case_u. cbn [direc set_direc Z.eqb]. reflexivity.
       - rewrite (command_e t _ Ht). reflexivity. }
  all: unfold acknowledge; cbn [direc set_rx];
    destruct (direc s =? 0); unfold config, emit;
    cbn [rx direc startX startY gap delay_time PORTL PORTC trace
         set_rx set_trace]; rewrite ?app_nil_r; try reflexivity.
  rewrite List.filter_app. cbn [List.filter is_port]. now rewrite app_nil_r.
Qed.

Lemma unknown_tag_witness :
  exists s',
    command_interpreter (set_direc 0 (initial [LF] (fun _ => 0))) = Some s' /\
    rx s' = [] /\ config s' = (0, 0, 0, 0, 1400) /\
    trace s' = [SerialPrint "a"].
Proof.
  destruct (unknown_tag (set_direc 0 (initial [LF] (fun _ => 0))) LF []
              eq_refl eq_refl) as (s' & H1 & H2 & H3 & _ & _ & _ & H7 & _).
  exists s'. split; [exact H1|]. split; [exact H2|].
  split; [exact H3 | exact H7].
Defined.

(** ** Acknowledgements *)

Lemma acks_app (t u : list event) : acks (t ++ u) = (acks t + acks u)%nat.
Proof. unfold acks. now rewrite List.filter_app, length_app. Qed.

Lemma acks_sweep (y d : Z) (a : nat -> Z) (r : nat) :
  acks (sweep_events y d a r) = 0%nat.
Proof. vm_compute. reflexivity. Qed.

Lemma acks_send (a : nat -> Z) (r : nat) : acks (send_events a r) = 0%nat.
Proof. vm_compute. reflexivity. Qed.

(** What [switch] adds to the trace holds no acknowledgement, and it
    leaves the line buffer alone. *)
Lemma switch_val_effect (val : Z) (s s2 : state) :
  switch_val val s = Some s2 ->
  fes s2 = fes s /\
  exists pre, trace s2 = trace s ++ pre /\ acks pre = 0%nat.
Proof.
  unfold switch_val, case_p, case_x, case_y, case_g.
  intros H.
  repeat match type of H with
         | (if ?b then _ else _) = _ => destruct b
         | (mbind _ ?r) = _ => destruct r as [[[n buf] rest]|]; cbn in H
         end;
    try discriminate; injection H as <-; (split; [reflexivity|]).
  1-5, 7: exists []; cbn; now rewrite app_nil_r.
  exists [PortL 0; PortC 0].
  unfold case_e, write_PORTC, write_PORTL, emit. cbn.
  now rewrite <- app_assoc.
Qed.

Lemma acknowledge_trace (s : state) :
  trace (acknowledge s) =
  trace s ++ (if direc s =? 0 then [SerialPrint "a"] else []).
Proof.
  unfold acknowledge. destruct (direc s =? 0); cbn; now rewrite ?app_nil_r.
Qed.

Lemma command_interpreter_effect (s s1 : state) :
  command_interpreter s = Some s1 ->
  fes s1 = fes s /\
  exists evs, trace s1 = trace s ++ evs /\
    acks evs = if Serial_available s && (direc s1 =? 0) then 1%nat else 0%nat.
Proof.
  destruct (rx s) as [|c rest] eqn:Hrx.
  - rewrite command_interpreter_nil by exact Hrx. intros [= <-].
    split; [reflexivity|]. exists []. rewrite app_nil_r.
    unfold Serial_available. now rewrite Hrx.
  - rewrite (command_interpreter_cons s _ _ Hrx).
    destruct (switch_val _ _) as [s2|] eqn:Hsw; [|discriminate].
    cbn. intros [= <-].
    apply switch_val_effect in Hsw as (Hfes & pre & Htr & Hpre).
    split.
    { unfold acknowledge. destruct (direc s2 =? 0); exact Hfes. }
    exists (pre ++ if direc s2 =? 0 then [SerialPrint "a"] else []).
    rewrite acknowledge_trace, Htr. cbn [trace set_rx]. rewrite <- app_assoc.
    split; [reflexivity|].
    rewrite acks_app, Hpre. unfold Serial_available. rewrite Hrx.
    replace (direc (acknowledge s2)) with (direc s2)
      by (unfold acknowledge; destruct (direc s2 =? 0); reflexivity).
    destruct (direc s2 =? 0); reflexivity.
Qed.

Lemma scan_engine_effect (s : state) :
  length (fes s) = 256%nat ->
  direc (scan_engine s) = direc s /\
  exists evs, trace (scan_engine s) = trace s ++ evs /\ acks evs = 0%nat.
Proof.
  intros Hlen. unfold scan_engine. destruct (direc s =? 0).
  - rewrite run_step_eq by exact Hlen. split; [reflexivity|].
    eexists. split; [reflexivity|].
    now rewrite acks_app, acks_sweep, acks_send.
  - rewrite idle_step_eq. split; [reflexivity|].
    eexists. split; reflexivity.
Qed.

(** [C5] In an iteration of [loop()] in which the interpreter consumed a
    byte and the mode after processing is RUN, exactly one byte [a] is
    written to the serial port; in every other iteration -- no byte
    consumed, or mode IDLE after processing -- none is written. *)
Theorem one_ack_per_iteration (s s' : state) :
  length (fes s) = 256%nat ->
  loop s = Some s' ->
  exists s1 evs,
    command_interpreter s = Some s1 /\ s' = scan_engine s1 /\
    direc s' = direc s1 /\
    trace s' = trace s ++ evs /\
    acks evs = if Serial_available s && (direc s1 =? 0) then 1%nat else 0%nat.
Proof.
  intros Hlen Hloop. unfold loop in Hloop.
  destruct (command_interpreter s) as [s1|] eqn:Hci; [|discriminate].
  cbn in Hloop. injection Hloop as <-.
  apply command_interpreter_effect in Hci as (Hfes & evs1 & Ht1 & Ha1).
  destruct (scan_engine_effect s1) as (Hd & evs2 & Ht2 & Ha2);
    [congruence|].
  exists s1, (evs1 ++ evs2). split; [reflexivity|]. split; [reflexivity|].
  split; [exact Hd|]. split.
  - rewrite Ht2, Ht1. now rewrite <- app_assoc.
  - rewrite acks_app, Ha1, Ha2. lia.
Qed.

Lemma one_ack_per_iteration_witness :
  exists s' evs,
    loop (initial ["u"%char] (fun _ => 0)) = Some s' /\
    trace s' = evs /\ acks evs = 1%nat.
Proof.
  destruct (one_ack_per_iteration (initial ["u"%char] (fun _ => 0))
              (scan_engine (acknowledge (case_u
                 (set_rx [] (initial ["u"%char] (fun _ => 0))))))
              eq_refl eq_refl) as (s1 & evs & H1 & H2 & H3 & H4 & H5).
  injection H1 as <-.
  exists (scan_engine (acknowledge (case_u
            (set_rx [] (initial ["u"%char] (fun _ => 0)))))), evs.
  split; [reflexivity|]. split; [exact H4 | exact H5].
Defined.

(** ** A scan line *)


Lemma x_writes_sweep (y d : Z) (a : nat -> Z) (r : nat) :
  x_writes (sweep_events y d a r) = map Z.of_nat (seq 0 256).
Proof. vm_compute. reflexivity. Qed.

Lemma y_writes_sweep (y d : Z) (a : nat -> Z) (r : nat) :
  y_writes (sweep_events y d a r) = [to_byte y].
Proof. vm_compute. reflexivity. Qed.

Lemma samples_sent_sweep (y d : Z) (a : nat -> Z) (r : nat) :
  samples_sent (sweep_events y d a r) = [].
Proof. vm_compute. reflexivity. Qed.

Lemma samples_sent_send (a : nat -> Z) (r : nat) :
  samples_sent (send_events a r) = line_samples a r.
Proof. vm_compute. reflexivity. Qed.

Lemma ports_send (a : nat -> Z) (r : nat) :
  List.filter is_port (send_events a r) = [].
Proof. vm_compute. reflexivity. Qed.




(** ** The Y origin across lines *)

Lemma to_int_add (a g : Z) : to_int (to_int a + g) = to_int (a + g).
Proof.
  unfold to_int.
  replace ((a + 32768) mod 65536 - 32768) with
    (a - 65536 * ((a + 32768) / 65536))
    by (pose proof (Z.div_mod (a + 32768) 65536); lia).
  replace (a - 65536 * ((a + 32768) / 65536) + g + 32768) with
    (a + g + 32768 + (- ((a + 32768) / 65536)) * 65536) by lia.
  now rewrite Z.mod_add by lia.
Qed.

Lemma loops_add (n m : nat) (s : state) :
  loops (n + m) s = s1 ← loops n s; loops m s1.
Proof.
  revert s. induction n as [|n IH]; intros s; [reflexivity|].
  cbn [loops Nat.add]. destruct (loop s) as [s1|]; [|reflexivity].
  cbn. apply IH.
Qed.

Lemma loop_run_idle_input (s : state) :
  rx s = [] -> direc s = 0 -> loop s = Some (run_step s).
Proof.
  intros Hrx Hd. unfold loop. rewrite command_interpreter_nil by exact Hrx.
  cbn [mbind option_bind]. unfold scan_engine. rewrite Hd. reflexivity.
Qed.

Lemma run_step_fields (s : state) :
  length (fes s) = 256%nat ->
  length (fes (run_step s)) = 256%nat /\
  direc (run_step s) = direc s /\ rx (run_step s) = rx s /\
  startY (run_step s) = to_int (startY s + gap s) /\
  gap (run_step s) = gap s /\ PORTC (run_step s) = to_byte (startY s).
Proof.
  intros Hlen. rewrite run_step_eq by exact Hlen.
  cbn [fes direc rx startY gap PORTC].
  split; [apply length_line_samples|]. repeat split.
Qed.

(** [n] lines scanned without further input. *)
Lemma run_lines (n : nat) :
  forall s : state,
  length (fes s) = 256%nat -> direc s = 0 -> rx s = [] ->
  -32768 <= startY s <= 32767 ->
  exists s', loops n s = Some s' /\
    startY s' = to_int (startY s + Z.of_nat n * gap s) /\
    gap s' = gap s /\ direc s' = 0 /\ rx s' = [] /\
    length (fes s') = 256%nat.
Proof.
  induction n as [|n IH]; intros s Hlen Hd Hrx Hy.
  - exists s. split; [reflexivity|].
    rewrite Z.mul_0_l, Z.add_0_r, to_int_small by exact Hy. auto.
  - cbn [loops]. rewrite loop_run_idle_input by assumption.
    cbn [mbind option_bind].
    destruct (run_step_fields s Hlen) as (Hl1 & Hd1 & Hrx1 & Hy1 & Hg1 & _).
    destruct (IH (run_step s)) as (s' & Hl & Hy' & Hg & Hd' & Hrx' & Hlen').
    + exact Hl1.
    + congruence.
    + congruence.
    + rewrite Hy1. apply to_int_range.
    + exists s'. split; [exact Hl|].
      rewrite Hy', Hg, Hy1, Hg1, to_int_add.
      split; [f_equal; lia|]. auto.
Qed.

(** [C4], as stated, fails at the end of the [int] range.  After [y255],
    [g128], [u] and 256 iterations of [loop()] the Y origin is 32767; the
    next line cannot store 32767 + 128 in [startY], an [int], and leaves
    -32641 there. *)
Lemma y_advance_counterexample :
  exists s,
    loops 256 (initial (cmd "y255" ++ cmd "g128" ++ bytes "u") (fun _ => 0))
      = Some s /\
    direc s = 0 /\ startY s = 32767 /\ gap s = 128 /\
    startY (scan_engine s) = -32641 /\
    startY (scan_engine s) <> startY s + gap s.
Proof.
  set (s0 := initial _ _).
  assert (exists s3, loops 3 s0 = Some s3 /\ length (fes s3) = 256%nat /\
            direc s3 = 0 /\ rx s3 = [] /\ startY s3 = 383 /\ gap s3 = 128)
    as (s3 & H3 & Hlen & Hd & Hrx & Hy & Hg).
  { eexists. split; [vm_compute; reflexivity|]. vm_compute. auto. }
  destruct (run_lines 253 s3 Hlen Hd Hrx ltac:(lia))
    as (s & Hl & Hy' & Hg' & Hd' & Hrx' & Hlen').
  exists s. split.
  { change 256%nat with (3 + 253)%nat. rewrite loops_add, H3. exact Hl. }
  rewrite Hy, Hg in Hy'. change (to_int (383 + Z.of_nat 253 * 128)) with 32767 in Hy'.
  rewrite Hg in Hg'.
  split; [exact Hd'|]. split; [exact Hy'|]. split; [exact Hg'|].
  unfold scan_engine. rewrite Hd'. cbn [Z.eqb].
  rewrite run_step_eq by exact Hlen'. cbn [startY]. rewrite Hy', Hg'.
  split; [reflexivity | discriminate].
Qed.

(** [C4], amended.  After a completed scan line in RUN mode the Y origin
    equals its value at the start of the line plus the gap, exactly,
    whenever that sum fits [startY], a 16-bit [int] (is at most 32767); the
    sum is not clamped to 255, so the origin can exceed 255: after [y255],
    [g1], [u] the first line leaves it at 256. *)
Theorem y_advance (s : state) :
  length (fes s) = 256%nat -> direc s = 0 ->
  -32768 <= startY s + gap s <= 32767 ->
  startY (scan_engine s) = startY s + gap s /\
  (255 < startY s + gap s -> 255 < startY (scan_engine s)) /\
  gap (scan_engine s) = gap s /\
  (forall a, startY <$> loops 3 (initial (cmd "y255" ++ cmd "g1" ++ bytes "u") a)
             = Some 256).
Proof.
  intros Hlen Hd Hfit. unfold scan_engine. rewrite Hd. cbn [Z.eqb].
  rewrite run_step_eq by exact Hlen. cbn [startY gap].
  rewrite to_int_small by exact Hfit.
  split; [reflexivity|]. split; [auto|]. split; [reflexivity|].
  intros a. vm_compute. reflexivity.
Qed.

Lemma y_advance_witness :
  startY (scan_engine (set_direc 0 (set_gap 5 (set_startY 20
            (initial [] (fun _ => 0)))))) = 20 + 5.
Proof.
  exact (proj1 (y_advance
    (set_direc 0 (set_gap 5 (set_startY 20 (initial [] (fun _ => 0)))))
    eq_refl eq_refl ltac:(cbn; lia))).
Defined.

(** [C10] At the start of a RUN-mode scan line the value driven onto the Y
    bus is [startY] modulo 256, an 8-bit value, and the bus is not written
    again during the line.  So once [startY] has passed 255 the bus wraps
    round instead of saturating: after [y255], [g128], [u] the first line
    is scanned at 255 and the second, with [startY = 383], at 127. *)
Theorem y_bus_value (s : state) :
  length (fes s) = 256%nat -> direc s = 0 ->
  (exists evs,
     trace (scan_engine s) = trace s ++ PortC (startY s mod 256) :: evs /\
     y_writes evs = []) /\
  PORTC (scan_engine s) = startY s mod 256 /\
  0 <= startY s mod 256 < 256 /\
  (forall a,
     (fun t => (startY t, y_writes (trace t))) <$>
       loops 3 (initial (cmd "y255" ++ cmd "g128" ++ bytes "u") a)
     = Some (383, [255]) /\
     (fun t => y_writes (trace t)) <$>
       loops 4 (initial (cmd "y255" ++ cmd "g128" ++ bytes "u") a)
     = Some [255; 127]).
Proof.
  intros Hlen Hd. unfold scan_engine. rewrite Hd. cbn [Z.eqb].
  rewrite run_step_eq by exact Hlen. cbn [trace PORTC].
  split; [|split; [reflexivity|split]].
  - eexists. unfold sweep_events. cbn [app]. split; [reflexivity|].
    vm_compute. reflexivity.
  - apply Z.mod_pos_bound. lia.
  - intros a. split; vm_compute; reflexivity.
Qed.

Lemma y_bus_value_witness :
  PORTC (scan_engine (set_direc 0 (set_startY 383 (initial [] (fun _ => 0)))))
  = 383 mod 256.
Proof.
  exact (proj1 (proj2 (y_bus_value
    (set_direc 0 (set_startY 383 (initial [] (fun _ => 0))))
    eq_refl eq_refl))).
Defined.

(** ** The scenario of the specification *)

(** [C7] From the initial state, with the commands [x10], [y20], [g5],
    [p1000], [u], each ended by a line feed, waiting at the serial port:
    four IDLE iterations take the four parameters and write no bus; the
    fifth takes [u], acknowledges, and scans the first line, whose 256
    samples are taken at X = 0..255 with the Y bus written once, to 20,
    and are then sent; the Y origin is then 25, and the next iteration
    scans the next line with the Y bus at 25. *)
Theorem scenario_first_lines (a : nat -> Z) :
  let input := cmd "x10" ++ cmd "y20" ++ cmd "g5" ++ cmd "p1000" ++ cmd "u" in
  let idle4 := idle_events a 0 ++ idle_events a 1 ++ idle_events a 2
                 ++ idle_events a 3 in
  let line1 := sweep_events 20 1000 a 4 ++ send_events a 4 in
  let line2 := sweep_events 25 1000 a 260 ++ send_events a 260 in
  (fun s => (config s, trace s)) <$> loops 4 (initial input a)
    = Some ((2, 10, 20, 5, 1000), idle4) /\
  (fun s => (config s, trace s)) <$> loops 5 (initial input a)
    = Some ((0, 10, 25, 5, 1000), idle4 ++ [SerialPrint "a"] ++ line1) /\
  (fun s => (config s, trace s)) <$> loops 6 (initial input a)
    = Some ((0, 10, 30, 5, 1000),
            idle4 ++ [SerialPrint "a"] ++ line1 ++ [SerialPrint "a"] ++ line2) /\
  List.filter is_port idle4 = [] /\
  x_writes line1 = map Z.of_nat (seq 0 256) /\
  y_writes line1 = [20] /\
  samples_sent line1 = line_samples a 4 /\
  length (line_samples a 4) = 256%nat /\
  y_writes line2 = [25].
Proof.
  cbv zeta. repeat apply conj; vm_compute; reflexivity.
Qed.

(** ** Termination of an iteration

    [loop()] returns unless a parameter command waits for a line feed that
    never arrives. *)

Lemma split_at_line_feed (stream : list ascii) :
  In LF stream ->
  exists payload rest,
    stream = payload ++ LF :: rest /\ Forall (fun c => c <> LF) payload.
Proof.
  induction stream as [|c stream IH]; intros H; [destruct H|].
  destruct (ascii_dec c LF) as [->|Hc].
  - exists [], stream. split; [reflexivity | constructor].
  - destruct H as [H|H]; [congruence|].
    destruct (IH H) as (payload & rest & -> & Hp).
    exists (c :: payload), rest. split; [reflexivity|].
    constructor; assumption.
Qed.

Lemma is_tag_cases (c : ascii) :
  is_tag c = true ->
  (exists p, c = tag_of p) \/ c = "u"%char \/ c = "e"%char.
Proof.
  unfold is_tag. cbn [existsb]. intros H.
  repeat (apply orb_true_iff in H as [H|H]);
    try discriminate; apply Z.eqb_eq, chr_inj in H; subst.
  - left. now exists Px.
  - left. now exists Py.
  - left. now exists Pg.
  - left. now exists Pp.
  - right. now left.
  - right. now right.
Qed.

Lemma command_u (s : state) (rest : list ascii) :
  rx s = "u"%char :: rest ->
  command_interpreter s =
  Some (emit (SerialPrint "a") (set_direc 0 (set_rx rest s))).
Proof.
  intros Hrx. rewrite (command_interpreter_cons s _ _ Hrx). reflexivity.
Qed.

Lemma command_interpreter_returns (s : state) :
  wf s ->
  (forall p stream, rx s = tag_of p :: stream -> In LF stream) ->
  exists s', command_interpreter s = Some s'.
Proof.
  intros Hwf Hlf. destruct (rx s) as [|c stream] eqn:Hrx.
  - exists s. now apply command_interpreter_nil.
  - destruct (is_tag c) eqn:Htag.
    + apply is_tag_cases in Htag as [[p ->]|[->| ->]].
      * destruct (split_at_line_feed stream (Hlf p stream eq_refl))
          as (payload & rest & -> & Hp).
        destruct (parameter_frame p s payload rest Hwf Hp) as (s' & H & _).
        { rewrite Hrx. unfold frame. cbn [app]. now rewrite <- app_assoc. }
        now exists s'.
      * rewrite (command_u s stream Hrx). now eexists.
      * rewrite (command_e s stream Hrx). now eexists.
    + rewrite (command_interpreter_cons s _ _ Hrx).
      rewrite switch_val_other by exact Htag. now eexists.
Qed.

Lemma loop_returns (s : state) :
  wf s ->
  (forall p stream, rx s = tag_of p :: stream -> In LF stream) ->
  exists s', loop s = Some s'.
Proof.
  intros Hwf Hlf. unfold loop.
  destruct (command_interpreter_returns s Hwf Hlf) as (s1 & ->).
  now eexists.
Qed.

(** Without a line feed a parameter command never returns. *)
Lemma read_digits_stalls (maxDigit : Z) (stream : list ascii) :
  forall input j,
  ~ In LF stream -> read_digits maxDigit input j stream = None.
Proof.
  induction stream as [|c stream IH]; intros input j H; [reflexivity|].
  cbn [read_digits].
  destruct (to_char (chr c) =? chr LF) eqn:E.
  { apply line_feed_test in E. subst. destruct H. now left. }
  destruct (_ && _); apply IH; intros Hin; apply H; now right.
Qed.

(** * Further properties of [loop()] *)

(** ** Parameter commands as state equations *)

Lemma command_param_eq (p : param) (s : state) (stream : list ascii)
    (n : Z) (buf : list Z) (rest : list ascii) :
  rx s = tag_of p :: stream ->
  read_number (maxDigit_of p) (buffer_of p s) stream = Some (n, buf, rest) ->
  command_interpreter s =
  Some (acknowledge (set_param p (ceiled p n) buf (set_rx rest s))).
Proof.
  intros Hrx Hread.
  rewrite (command_interpreter_cons s _ _ Hrx), switch_val_param.
  replace (buffer_of p (set_rx stream s)) with (buffer_of p s)
    by (destruct p; reflexivity).
  cbn [rx set_rx]. rewrite Hread. cbn [mbind option_bind].
  unfold ceiled. destruct p; cbn [ceiling_of set_param];
    rewrite ?clamp_min; reflexivity.
Qed.

Lemma command_param_stall (p : param) (s : state) (stream : list ascii) :
  rx s = tag_of p :: stream -> ~ In LF stream ->
  command_interpreter s = None.
Proof.
  intros Hrx Hlf.
  rewrite (command_interpreter_cons s _ _ Hrx), switch_val_param.
  cbn [rx set_rx]. unfold read_number.
  rewrite read_digits_stalls by exact Hlf. reflexivity.
Qed.

(** [C-string] shape of a digit buffer after the accumulation loop and the
    terminator: at most [maxDigit] digits, then NUL, inside the array. *)
Lemma read_number_buffer (maxDigit : nat) (input : list Z)
    (stream : list ascii) (n : Z) (buf : list Z) (rest : list ascii) :
  (maxDigit < length input)%nat -> (maxDigit < 256)%nat ->
  read_number (Z.of_nat maxDigit) input stream = Some (n, buf, rest) ->
  exists payload ds tail,
    stream = payload ++ LF :: rest /\ Forall (fun c => c <> LF) payload /\
    ds = take maxDigit (List.filter digit_byte payload) /\
    buf = map chr ds ++ 0 :: tail /\
    length buf = length input /\
    n = to_int (payload_number maxDigit payload).
Proof.
  intros Hlen Hmax Hread.
  destruct (in_dec ascii_dec LF stream) as [Hin|Hnin].
  2: { unfold read_number in Hread.
       rewrite read_digits_stalls in Hread by exact Hnin. discriminate. }
  destruct (split_at_line_feed stream Hin) as (payload & rest' & -> & Hp).
  destruct (read_digits_spec maxDigit payload input 0 rest' Hp)
    as (input1 & Hr & Hl & Ht); [lia..|].
  rewrite Nat.sub_0_r in *. cbn [Nat.add take app] in *.
  set (ds := take maxDigit (List.filter digit_byte payload)) in *.
  assert (length ds <= maxDigit)%nat as Hds
    by (subst ds; rewrite length_take; lia).
  unfold read_number in Hread. change (Z.of_nat 0) with 0 in Hr.
  rewrite Hr in Hread. cbn [mbind option_bind] in Hread.
  rewrite Nat2Z.id in Hread.
  rewrite insert_take_drop, Ht in Hread by lia.
  injection Hread as <- <- <-.
  exists payload, ds, (drop (S (length ds)) input1).
  split; [reflexivity|]. split; [exact Hp|]. split; [reflexivity|].
  split; [reflexivity|]. split.
  - rewrite <- Hl. rewrite <- Ht at 1.
    rewrite <- (take_drop (length ds) input1) at 3.
    rewrite !length_app. cbn [length]. rewrite !length_drop, !length_take. lia.
  - apply atoi_buffer. apply filter_digits_Forall.
Qed.

Lemma rx_send_line (s : state) : rx (send_line s) = rx s.
Proof. unfold send_line. now rewrite (for_loop_frame send_body rx). Qed.

Lemma rx_scan_line (s : state) : rx (scan_line s) = rx s.
Proof. unfold scan_line. now rewrite (for_loop_frame sample_body rx). Qed.

Lemma rx_next_line (s : state) : rx (next_line s) = rx s.
Proof. reflexivity. Qed.

Lemma rx_scan_engine (s : state) : rx (scan_engine s) = rx s.
Proof.
  unfold scan_engine. destruct (direc s =? 0); [|reflexivity].
  unfold run_step. rewrite rx_send_line, rx_next_line.
  apply rx_scan_line.
Qed.

(** [X1] An iteration of [loop()] fails to return exactly when the byte it
    reads is the tag of a parameter command ([x], [y], [g] or [p]) and no
    line feed follows in the stream: the accumulation loop then waits for
    ever.  Every other iteration returns. *)
Theorem loop_stalls_iff (s : state) :
  wf s ->
  loop s = None <->
  exists p stream, rx s = tag_of p :: stream /\ ~ In LF stream.
Proof.
  intros Hwf. split.
  - intros Hnone. destruct (rx s) as [|c stream] eqn:Hrx.
    { unfold loop in Hnone.
      rewrite command_interpreter_nil in Hnone by exact Hrx. discriminate. }
    destruct (is_tag c) eqn:Htag.
    + apply is_tag_cases in Htag as [[p ->]|[->| ->]].
      * destruct (in_dec ascii_dec LF stream) as [Hin|Hnin].
        -- destruct (loop_returns s Hwf) as (s' & Hs'); [|congruence].
           intros q stream' Hq. rewrite Hrx in Hq.
           injection Hq as Hq <-. exact Hin.
        -- exists p, stream. auto.
      * unfold loop in Hnone. rewrite (command_u s stream Hrx) in Hnone.
        discriminate.
      * unfold loop in Hnone. rewrite (command_e s stream Hrx) in Hnone.
        discriminate.
    + unfold loop in Hnone.
      rewrite (command_interpreter_cons s _ _ Hrx) in Hnone.
      rewrite switch_val_other in Hnone by exact Htag. discriminate.
  - intros (p & stream & Hrx & Hlf). unfold loop.
    rewrite (command_param_stall p s stream Hrx Hlf). reflexivity.
Qed.

Lemma loop_stalls_iff_witness :
  loop (initial (bytes "x12") (fun _ => 0)) = None.
Proof.
  apply (proj2 (loop_stalls_iff (initial (bytes "x12") (fun _ => 0))
                  ltac:(repeat split))).
  exists Px, (bytes "12"). split; [reflexivity|].
  cbn. intros [H|[H|[]]]; discriminate.
Defined.

(** [X2] Whenever the accumulation loop of a parameter command returns, the
    command's digit buffer holds a C string that fits the array: at some
    index [k], at most the digit capacity and inside the array, there is
    the NUL terminator, and every character before it is a decimal digit.
    So the writes of the loop and the reads of [atoi] stay in bounds,
    whatever the payload and whatever the buffer held before. *)
Theorem digit_buffer_terminated (p : param) (s : state)
    (stream : list ascii) (n : Z) (buf : list Z) (rest : list ascii) :
  wf s ->
  read_number (maxDigit_of p) (buffer_of p s) stream = Some (n, buf, rest) ->
  exists k : nat,
    (k <= capacity p)%nat /\ (k < length buf)%nat /\
    length buf = length (buffer_of p s) /\
    buf !! k = Some 0 /\
    (forall i, (i < k)%nat -> exists d, buf !! i = Some d /\ 48 <= d <= 57) /\
    n = atoi buf.
Proof.
  intros Hwf Hread.
  assert (n = atoi buf) as Hn.
  { unfold read_number in Hread.
    destruct (read_digits _ _ _ _) as [[[b j] r]|]; [|discriminate].
    cbn in Hread. now injection Hread as <- <- _. }
  destruct (wf_buffer p s Hwf) as [Hlen Hmax]. rewrite Hmax in Hread.
  apply read_number_buffer in Hread
    as (payload & ds & tail & _ & _ & Hds & Hbuf & Hl & _);
    [|exact Hlen|destruct p; cbn; lia].
  assert (length (map chr ds) = length ds) as Hm by apply length_map.
  exists (length ds). split; [subst ds; rewrite length_take; lia|].
  split; [rewrite Hl; subst ds; rewrite length_take; lia|].
  split; [exact Hl|]. split; [|split; [|exact Hn]].
  - rewrite Hbuf. apply list_lookup_middle. now rewrite Hm.
  - intros i Hi. rewrite Hbuf, lookup_app_l by (rewrite Hm; exact Hi).
    destruct (lookup_lt_is_Some_2 ds i Hi) as [c Hc].
    exists (chr c). rewrite list_lookup_fmap, Hc. split; [reflexivity|].
    assert (Forall (fun d => digit_byte d = true) ds) as Hall
      by (subst ds; apply filter_digits_Forall).
    rewrite Forall_lookup in Hall.
    apply digit_byte_char. exact (Hall i c Hc).
Qed.

Lemma digit_buffer_terminated_witness :
  exists k : nat,
    (k <= 3)%nat /\ [55; 0; 57; 57] !! k = Some 0.
Proof.
  destruct (digit_buffer_terminated Px
              (set_inputfx [57; 57; 57; 57] (initial [] (fun _ => 0)))
              (bytes "7" ++ [LF]) 7 [55; 0; 57; 57] [])
    as (k & H1 & _ & _ & H4 & _).
  - repeat split.
  - reflexivity.
  - exists k. split; [exact H1 | exact H4].
Defined.

(** ** Consumption of the input *)

Lemma read_digits_suffix (maxDigit : Z) (stream : list ascii) :
  forall input j input' j' rest,
  read_digits maxDigit input j stream = Some (input', j', rest) ->
  exists pre, stream = pre ++ LF :: rest.
Proof.
  induction stream as [|c stream IH]; intros input j input' j' rest H;
    [discriminate|].
  cbn [read_digits] in H.
  destruct (to_char (chr c) =? chr LF) eqn:E.
  - apply line_feed_test in E. subst c. injection H as _ _ <-.
    now exists [].
  - destruct (_ && _); apply IH in H as (pre & ->); now exists (c :: pre).
Qed.

Lemma switch_val_rx (val : Z) (s s2 : state) :
  switch_val val s = Some s2 -> exists pre, rx s = pre ++ rx s2.
Proof.
  unfold switch_val, case_p, case_x, case_y, case_g, read_number.
  intros H.
  repeat match type of H with
         | (if ?b then _ else _) = _ => destruct b
         end;
    try (injection H as <-; now exists []);
    destruct (read_digits _ _ _ _) as [[[b j] r]|] eqn:E;
    try discriminate; cbn in H; injection H as <-;
    apply read_digits_suffix in E as (pre & ->);
    exists (pre ++ [LF]); cbn; now rewrite <- app_assoc.
Qed.

Lemma loop_consumes (s s' : state) :
  loop s = Some s' ->
  exists pre, rx s = pre ++ rx s' /\ (rx s <> [] -> pre <> []).
Proof.
  unfold loop. intros H.
  destruct (command_interpreter s) as [s1|] eqn:Hci; [|discriminate].
  cbn in H. injection H as <-. rewrite rx_scan_engine.
  destruct (rx s) as [|c stream] eqn:Hrx.
  - rewrite command_interpreter_nil in Hci by exact Hrx.
    injection Hci as <-. exists []. now rewrite Hrx.
  - rewrite (command_interpreter_cons s _ _ Hrx) in Hci.
    destruct (switch_val _ _) as [s2|] eqn:Hsw; [|discriminate].
    cbn in Hci. injection Hci as <-.
    apply switch_val_rx in Hsw as (pre & Hpre). cbn [rx set_rx] in Hpre.
    exists (c :: pre).
    replace (rx (acknowledge s2)) with (rx s2)
      by (unfold acknowledge; destruct (direc s2 =? 0); reflexivity).
    rewrite Hpre. split; [reflexivity | discriminate].
Qed.

(** [X3] The interpreter only ever takes bytes from the front of the
    stream, and every iteration of [loop()] that finds a byte takes at
    least one: after [n] iterations what is left is a suffix of the
    input, and once [n] reaches the length of the input nothing is left. *)
Theorem input_consumed (n : nat) :
  forall s s' : state,
  loops n s = Some s' ->
  (exists pre, rx s = pre ++ rx s') /\
  ((length (rx s) <= n)%nat -> rx s' = []).
Proof.
  induction n as [|n IH]; intros s s' H.
  - injection H as <-. split; [now exists []|].
    intros Hl. destruct (rx s); [reflexivity | cbn in Hl; lia].
  - cbn [loops] in H. destruct (loop s) as [s1|] eqn:Hloop; [|discriminate].
    cbn in H. apply loop_consumes in Hloop as (pre1 & Hpre1 & Hne).
    apply IH in H as [(pre2 & Hpre2) Hempty].
    split.
    + exists (pre1 ++ pre2). now rewrite Hpre1, Hpre2, app_assoc.
    + intros Hl. apply Hempty.
      destruct (rx s) as [|c stream] eqn:Hrx.
      * symmetry in Hpre1. apply app_eq_nil in Hpre1 as [_ ->].
        apply Nat.le_0_l.
      * assert (pre1 <> []) as Hp by (apply Hne; discriminate).
        apply (f_equal (@length ascii)) in Hpre1.
        rewrite length_app in Hpre1. cbn [length] in Hpre1, Hl.
        destruct pre1; [congruence|]. cbn [length] in Hpre1. lia.
Qed.

Lemma input_consumed_witness :
  exists s',
    loops 3 (initial (cmd "x7") (fun _ => 0)) = Some s' /\
    rx s' = [].
Proof.
  destruct (loops 3 (initial (cmd "x7") (fun _ => 0)))
    as [s'|] eqn:H.
  - exists s'. split; [reflexivity|].
    apply (proj2 (input_consumed 3 _ s' H)). vm_compute. lia.
  - vm_compute in H. discriminate.
Defined.

(** ** Ranges kept by every run *)

Lemma bounded_initial (input : list ascii) (a : nat -> Z) :
  bounded (initial input a).
Proof. unfold bounded, wf. cbn. repeat split; (lia || auto). Qed.

Lemma bounded_acknowledge (s : state) : bounded s -> bounded (acknowledge s).
Proof. unfold acknowledge. destruct (direc s =? 0); auto. Qed.

Lemma bounded_scan_engine (s : state) : bounded s -> bounded (scan_engine s).
Proof.
  intros (Hwf & Hd & Hx & Hg & Hy & Hp & Hl & Hc).
  pose proof (wf_scan_engine s Hwf) as Hwf'.
  destruct Hwf as (_ & _ & _ & _ & Hlen).
  unfold bounded. split; [exact Hwf'|].
  unfold scan_engine in *. destruct (direc s =? 0).
  - rewrite run_step_eq by exact Hlen.
    cbn [direc startX gap startY delay_time PORTL PORTC].
    pose proof (to_int_range (startY s + gap s)).
    pose proof (to_byte_range (startY s)). repeat split; (lia || auto).
  - rewrite idle_step_eq. cbn. repeat split; (lia || auto).
Qed.

Lemma bounded_set_param (p : param) (n : Z) (buf : list Z)
    (rest : list ascii) (s : state) :
  bounded s -> length buf = length (buffer_of p s) ->
  -32768 <= n <= 32767 -> (p <> Pp -> 0 <= n) ->
  bounded (set_param p (ceiled p n) buf (set_rx rest s)).
Proof.
  intros ((H1 & H2 & H3 & H4 & H5) & Hd & Hx & Hg & Hy & Hp & Hl & Hc)
    Hbuf Hn Hpos.
  unfold bounded, wf, ceiled.
  destruct p; cbn in *;
    try (specialize (Hpos ltac:(discriminate)));
    repeat split; (lia || auto || congruence).
Qed.

Lemma bounded_command_interpreter (s s' : state) :
  bounded s -> command_interpreter s = Some s' -> bounded s'.
Proof.
  intros Hb H. destruct (rx s) as [|c stream] eqn:Hrx.
  { rewrite command_interpreter_nil in H by exact Hrx. now injection H as <-. }
  destruct (is_tag c) eqn:Htag.
  - apply is_tag_cases in Htag as [[p ->]|[->| ->]].
    + pose proof H as H0.
      rewrite (command_interpreter_cons s _ _ Hrx), switch_val_param in H0.
      replace (buffer_of p (set_rx stream s)) with (buffer_of p s) in H0
        by (destruct p; reflexivity).
      cbn [rx set_rx] in H0.
      destruct (read_number _ _ _) as [[[n buf] rest]|] eqn:Hread;
        [|discriminate]. clear H0.
      rewrite (command_param_eq p s stream n buf rest Hrx Hread) in H.
      injection H as <-.
      destruct (wf_buffer p s (proj1 Hb)) as [Hlen Hmax].
      rewrite Hmax in Hread.
      apply read_number_buffer in Hread
        as (payload & _ & _ & _ & _ & _ & _ & Hl & ->);
        [|exact Hlen|destruct p; cbn; lia].
      apply bounded_acknowledge, bounded_set_param; auto.
      * apply to_int_range.
      * intros Hp. pose proof (payload_number_bound (capacity p) payload) as B.
        rewrite to_int_small; [lia|].
        assert (capacity p = 3%nat) as E
          by (destruct p; congruence || reflexivity).
        rewrite E in *. change (10 ^ Z.of_nat 3) with 1000 in B. lia.
    + rewrite (command_u s stream Hrx) in H. injection H as <-.
      destruct Hb as (Hwf & Hd & Hx & Hg & Hy & Hp & Hl & Hc).
      unfold bounded. cbn. repeat split; (apply Hwf || lia || auto).
    + rewrite (command_e s stream Hrx) in H. injection H as <-.
      destruct Hb as (Hwf & Hd & Hx & Hg & Hy & Hp & Hl & Hc).
      unfold bounded. cbn. repeat split; (apply Hwf || lia || auto).
  - rewrite (command_interpreter_cons s _ _ Hrx) in H.
    rewrite switch_val_other in H by exact Htag. injection H as <-.
    apply bounded_acknowledge. exact Hb.
Qed.

Lemma bounded_loop (s s' : state) : bounded s -> loop s = Some s' -> bounded s'.
Proof.
  intros Hb H. unfold loop in H.
  destruct (command_interpreter s) as [s1|] eqn:Hci; [|discriminate].
  cbn in H. injection H as <-.
  eapply bounded_scan_engine, bounded_command_interpreter; eauto.
Qed.

(** [X4] In every state reached from the initial one, whatever the input
    and the converter deliver: the arrays have their declared sizes, the
    mode is 0 (RUN) or 2 (IDLE), the X origin lies in 0..255 and the gap in
    0..128, the Y origin and the dwell are within the 16-bit [int] range,
    and both port registers hold 8-bit values. *)
Theorem reachable_bounded (n : nat) (input : list ascii) (a : nat -> Z)
    (s : state) :
  loops n (initial input a) = Some s -> bounded s.
Proof.
  generalize (bounded_initial input a). generalize (initial input a).
  clear input a. revert s.
  induction n as [|n IH]; intros s s0 Hb H.
  - now injection H as <-.
  - cbn [loops] in H. destruct (loop s0) as [s1|] eqn:Hloop; [|discriminate].
    cbn [mbind option_bind] in H.
    apply (IH s s1); [|exact H]. eapply bounded_loop; eauto.
Qed.

Lemma reachable_bounded_witness :
  exists s,
    loops 2 (initial (cmd "x999" ++ cmd "g999") (fun _ => 0)) = Some s /\
    0 <= startX s <= 255 /\ 0 <= gap s <= 128.
Proof.
  destruct (loops 2 (initial (cmd "x999" ++ cmd "g999") (fun _ => 0)))
    as [s|] eqn:H.
  - exists s. split; [reflexivity|].
    destruct (reachable_bounded 2 _ _ s H) as (_ & _ & Hx & Hg & _).
    split; [exact Hx | exact Hg].
  - vm_compute in H. discriminate.
Defined.

(** ** IDLE mode *)

Lemma loop_idle_no_input (s : state) :
  rx s = [] -> direc s <> 0 -> loop s = Some (idle_step s).
Proof.
  intros Hrx Hd. unfold loop. rewrite command_interpreter_nil by exact Hrx.
  cbn [mbind option_bind]. unfold scan_engine.
  destruct (Z.eqb_spec (direc s) 0); [contradiction | reflexivity].
Qed.

(** [X5] In IDLE mode and without input, [n] iterations of [loop()] read
    the converter [n] times and send each value read, in order, each
    followed by the 10 ms pause; nothing else changes: neither bus is
    written, and configuration, buffers and line buffer stay as they
    were. *)
Theorem idle_monitoring (n : nat) :
  forall s : state,
  direc s <> 0 -> rx s = [] ->
  loops n s =
  Some (set_trace
          (trace s ++
           flat_map (fun m => idle_events (adc s) (adc_reads s + m)%nat)
             (seq 0 n))
          (set_adc_reads (adc_reads s + n)%nat s)).
Proof.
  induction n as [|n IH]; intros s Hd Hrx.
  - cbn [loops seq flat_map]. rewrite app_nil_r, Nat.add_0_r.
    now destruct s.
  - cbn [loops]. rewrite loop_idle_no_input by assumption.
    cbn [mbind option_bind]. rewrite idle_step_eq.
    rewrite IH by assumption.
    cbn [adc adc_reads trace set_trace set_adc_reads].
    f_equal. apply state_eq; try reflexivity.
    + cbn [adc_reads set_trace set_adc_reads]. lia.
    + cbn [trace set_trace]. cbn [seq flat_map]. rewrite flat_map_shift.
      rewrite <- app_assoc, Nat.add_0_r. do 2 f_equal.
      apply flat_map_ext_seq. intros m _. now rewrite Nat.add_succ_r.
Qed.

Lemma idle_monitoring_witness :
  trace <$> loops 2 (initial [] (fun m => Z.of_nat m + 100))
  = Some [AnalogRead 100; SerialPrintln 100; Delay 10;
          AnalogRead 101; SerialPrintln 101; Delay 10].
Proof.
  rewrite (idle_monitoring 2 (initial [] (fun m => Z.of_nat m + 100)));
    [reflexivity | discriminate | reflexivity].
Defined.

(** ** Stopping and resuming *)






(** ** The dwell actually applied *)

Lemma to_uint_to_int (z : Z) : to_uint (to_int z) = z mod 65536.
Proof.
  unfold to_uint, to_int.
  replace ((z + 32768) mod 65536 - 32768) with
    (z + (- ((z + 32768) / 65536)) * 65536)
    by (pose proof (Z.div_mod (z + 32768) 65536); lia).
  now rewrite Z.mod_add by lia.
Qed.

Lemma acknowledge_run (s : state) :
  direc s = 0 -> acknowledge s = emit (SerialPrint "a") s.
Proof. intros H. unfold acknowledge. now rewrite H. Qed.

Lemma scan_engine_run (s : state) :
  direc s = 0 -> scan_engine s = run_step s.
Proof. intros H. unfold scan_engine. now rewrite H. Qed.

(** [X7] A [p] frame received in RUN mode takes effect on the scan line of
    the same iteration, and the pause applied before each of its 256
    samples is the payload's number modulo 2^16, because
    [delayMicroseconds] takes the dwell as an [unsigned int].  So every
    number up to 65535 is applied as written, also those above 32767 that
    [delay_time] holds as a negative [int]. *)
Theorem effective_dwell (s : state) (payload rest : list ascii) :
  wf s -> Forall (fun c => c <> LF) payload -> direc s = 0 ->
  rx s = frame "p" payload ++ rest ->
  exists s',
    loop s = Some s' /\
    trace s' = trace s ++ [SerialPrint "a"]
                 ++ sweep_events (startY s) (delay_time s') (adc s)
                      (adc_reads s)
                 ++ send_events (adc s) (adc_reads s) /\
    to_uint (delay_time s') = payload_number 5 payload mod 65536 /\
    (payload_number 5 payload <= 65535 ->
     to_uint (delay_time s') = payload_number 5 payload).
Proof.
  intros Hwf Hlf Hd Hrx.
  destruct (parsed_number_total Pp s payload rest Hwf Hlf) as (buf & Hread).
  unfold frame in Hrx. cbn [app] in Hrx. rewrite <- app_assoc in Hrx.
  pose proof (command_param_eq Pp s _ _ buf rest Hrx Hread) as Hci.
  rewrite acknowledge_run in Hci by exact Hd.
  unfold loop. rewrite Hci. cbn [mbind option_bind].
  rewrite scan_engine_run by exact Hd.
  rewrite run_step_eq by apply Hwf.
  eexists. split; [reflexivity|].
  unfold emit.
  cbn [trace delay_time startY adc adc_reads set_trace set_delay_time
       set_inputpoint set_rx capacity set_param ceiled ceiling_of].
  split; [now rewrite <- !app_assoc|].
  rewrite to_uint_to_int. split; [reflexivity|].
  intros Hv. pose proof (payload_number_bound 5 payload).
  apply Z.mod_small. lia.
Qed.

Lemma effective_dwell_witness :
  exists s',
    loop (set_direc 0 (initial (frame "p" (bytes "40000")) (fun _ => 0)))
      = Some s' /\
    delay_time s' = -25536 /\ to_uint (delay_time s') = 40000.
Proof.
  destruct (effective_dwell
              (set_direc 0 (initial (frame "p" (bytes "40000")) (fun _ => 0)))
              (bytes "40000") [])
    as (s' & H1 & _ & _ & H4).
  - repeat split.
  - repeat constructor; discriminate.
  - reflexivity.
  - reflexivity.
  - exists s'. split; [exact H1|].
    assert (to_uint (delay_time s') = 40000) as E
      by (rewrite H4; [reflexivity | vm_compute; discriminate]).
    split; [|exact E].
    vm_compute in H1. injection H1 as <-. reflexivity.
Defined.

(** ** No sample is lost *)

Lemma conversions_app (t u : list event) :
  conversions (t ++ u) = conversions t ++ conversions u.
Proof. apply omap_app. Qed.

Lemma samples_sent_app (t u : list event) :
  samples_sent (t ++ u) = samples_sent t ++ samples_sent u.
Proof. apply omap_app. Qed.

Lemma switch_val_quiet (val : Z) (s s2 : state) :
  switch_val val s = Some s2 ->
  fes s2 = fes s /\ adc s2 = adc s /\ adc_reads s2 = adc_reads s /\
  exists pre, trace s2 = trace s ++ pre /\
              conversions pre = [] /\ samples_sent pre = [].
Proof.
  unfold switch_val, case_p, case_x, case_y, case_g.
  intros H.
  repeat match type of H with
         | (if ?b then _ else _) = _ => destruct b
         | (mbind _ ?r) = _ => destruct r as [[[n buf] rest]|]; cbn in H
         end;
    try discriminate; injection H as <-; repeat (split; [reflexivity|]).
  1-5, 7: exists []; cbn; now rewrite app_nil_r.
  exists [PortL 0; PortC 0].
  unfold case_e, write_PORTC, write_PORTL, emit. cbn.
  now rewrite <- app_assoc.
Qed.

Lemma all_sent_command_interpreter (s s1 : state) :
  all_sent s -> command_interpreter s = Some s1 ->
  all_sent s1 /\ adc s1 = adc s.
Proof.
  intros (Hlen & Hc & Hs) H. destruct (rx s) as [|c stream] eqn:Hrx.
  { rewrite command_interpreter_nil in H by exact Hrx. injection H as <-.
    repeat split; assumption. }
  rewrite (command_interpreter_cons s _ _ Hrx) in H.
  destruct (switch_val _ _) as [s2|] eqn:Hsw; [|discriminate].
  cbn in H. injection H as <-.
  apply switch_val_quiet in Hsw as (Hf & Ha & Hr & pre & Ht & Hpc & Hps).
  cbn [fes adc adc_reads trace set_rx] in Hf, Ha, Hr, Ht.
  assert (fes (acknowledge s2) = fes s2 /\ adc (acknowledge s2) = adc s2 /\
          adc_reads (acknowledge s2) = adc_reads s2) as (Ef & Ea & Er)
    by (unfold acknowledge; destruct (direc s2 =? 0); repeat split).
  unfold all_sent. rewrite Ef, Ea, Er, Hf, Ha, Hr, acknowledge_trace, Ht.
  rewrite !conversions_app, !samples_sent_app, Hpc, Hps, Hc, Hs.
  assert (conversions (if direc s2 =? 0 then [SerialPrint "a"] else []) = [] /\
          samples_sent (if direc s2 =? 0 then [SerialPrint "a"] else []) = [])
    as [-> ->] by (destruct (direc s2 =? 0); split; reflexivity).
  rewrite !app_nil_r. repeat split; assumption.
Qed.

Lemma map_seq_shift (a : nat -> Z) (r n : nat) :
  forall k, map (fun m => a (r + m)%nat) (seq k n) = map a (seq (r + k) n).
Proof.
  induction n as [|n IH]; intros k; [reflexivity|].
  cbn [seq map]. f_equal. rewrite IH. now rewrite Nat.add_succ_r.
Qed.

Lemma line_samples_seq (a : nat -> Z) (r : nat) :
  line_samples a r = map a (seq r 256).
Proof.
  unfold line_samples. rewrite map_seq_shift. now rewrite Nat.add_0_r.
Qed.

Lemma conversions_sweep (y d : Z) (a : nat -> Z) (r : nat) :
  conversions (sweep_events y d a r) = line_samples a r.
Proof. vm_compute. reflexivity. Qed.

Lemma conversions_send (a : nat -> Z) (r : nat) :
  conversions (send_events a r) = [].
Proof. vm_compute. reflexivity. Qed.

Lemma all_sent_scan_engine (s : state) :
  all_sent s -> all_sent (scan_engine s) /\ adc (scan_engine s) = adc s.
Proof.
  intros (Hlen & Hc & Hs). unfold scan_engine, all_sent.
  destruct (direc s =? 0).
  - rewrite run_step_eq by exact Hlen. cbn [fes adc adc_reads trace].
    split; [|reflexivity]. split; [apply length_line_samples|].
    rewrite !conversions_app, !samples_sent_app, Hc, Hs.
    rewrite conversions_sweep, conversions_send, samples_sent_sweep,
      samples_sent_send, app_nil_r, line_samples_seq.
    rewrite seq_app, map_app. cbn [Nat.add app].
    split; reflexivity.
  - rewrite idle_step_eq.
    cbn [fes adc adc_reads trace set_trace set_adc_reads].
    rewrite !conversions_app, !samples_sent_app, Hc, Hs.
    replace (S (adc_reads s)) with (adc_reads s + 1)%nat by lia.
    rewrite seq_app, map_app. cbn [Nat.add seq map].
    split; [|reflexivity]. split; [exact Hlen|]. split; reflexivity.
Qed.

Lemma all_sent_loops (n : nat) :
  forall s0 s : state,
  all_sent s0 -> loops n s0 = Some s -> all_sent s /\ adc s = adc s0.
Proof.
  induction n as [|n IH]; intros s0 s H0 H.
  - injection H as <-. auto.
  - cbn [loops] in H. unfold loop in H.
    destruct (command_interpreter s0) as [s1|] eqn:Hci; [|discriminate].
    cbn [mbind option_bind] in H.
    destruct (all_sent_command_interpreter s0 s1 H0 Hci) as [H1 E1].
    destruct (all_sent_scan_engine s1 H1) as [H2 E2].
    destruct (IH _ s H2 H) as [H3 E3].
    split; [exact H3 | congruence].
Qed.

(** [X8] In every run from the initial state, the values sent as samples
    over the serial port are exactly the results of the conversions made
    so far, each once and in the order of conversion: the scan lines and
    the IDLE samples lose, repeat and reorder nothing, and no other number
    is ever sent. *)
Theorem every_conversion_sent (n : nat) (input : list ascii) (a : nat -> Z)
    (s : state) :
  loops n (initial input a) = Some s ->
  samples_sent (trace s) = conversions (trace s) /\
  samples_sent (trace s) = map a (seq 0 (adc_reads s)).
Proof.
  intros H.
  destruct (all_sent_loops n (initial input a) s) as [(_ & Hc & Hs) Ha].
  - unfold all_sent. cbn. repeat split.
  - exact H.
  - cbn [adc initial] in Ha. rewrite Ha in Hc, Hs. split; congruence.
Qed.

Lemma every_conversion_sent_witness :
  exists s,
    loops 2 (initial (cmd "g4") (fun m => Z.of_nat m + 7)) = Some s /\
    samples_sent (trace s) = [7; 8].
Proof.
  destruct (loops 2 (initial (cmd "g4") (fun m => Z.of_nat m + 7)))
    as [s|] eqn:H.
  - exists s. split; [reflexivity|].
    rewrite (proj2 (every_conversion_sent 2 _ _ s H)).
    vm_compute in H. injection H as <-. reflexivity.
  - vm_compute in H. discriminate.
Defined.

(** ** Order of parameter commands *)




Lemma scan_engine_idle (s : state) :
  direc s <> 0 -> scan_engine s = idle_step s.
Proof.
  intros H. unfold scan_engine.
  destruct (Z.eqb_spec (direc s) 0); [contradiction | reflexivity].
Qed.

Lemma direc_set_param (p : param) (v : Z) (buf : list Z) (s : state) :
  direc (set_param p v buf s) = direc s.
Proof. destruct p; reflexivity. Qed.




(** ** One writer for each configuration field *)

Lemma stored_acknowledge (q : param) (s : state) :
  stored q (acknowledge s) = stored q s.
Proof. unfold acknowledge. destruct (direc s =? 0), q; reflexivity. Qed.

Lemma direc_acknowledge (s : state) : direc (acknowledge s) = direc s.
Proof. unfold acknowledge. destruct (direc s =? 0); reflexivity. Qed.

Lemma command_interpreter_writers (s s1 : state) :
  command_interpreter s = Some s1 ->
  ((forall rest, rx s <> "u"%char :: rest /\ rx s <> "e"%char :: rest) ->
   direc s1 = direc s) /\
  (forall q, (forall stream, rx s <> tag_of q :: stream) ->
             stored q s1 = stored q s).
Proof.
  intros H. destruct (rx s) as [|c stream] eqn:Hrx.
  { rewrite command_interpreter_nil in H by exact Hrx. injection H as <-.
    auto. }
  destruct (is_tag c) eqn:Htag.
  - apply is_tag_cases in Htag as [[p ->]|[->| ->]].
    + pose proof H as H0.
      rewrite (command_interpreter_cons s _ _ Hrx), switch_val_param in H0.
      replace (buffer_of p (set_rx stream s)) with (buffer_of p s) in H0
        by (destruct p; reflexivity).
      cbn [rx set_rx] in H0.
      destruct (read_number _ _ _) as [[[n buf] rest]|] eqn:Hread;
        [|discriminate]. clear H0.
      rewrite (command_param_eq p s stream n buf rest Hrx Hread) in H.
      injection H as <-. split.
      * intros _. now rewrite direc_acknowledge, direc_set_param.
      * intros q Hq. rewrite stored_acknowledge.
        assert (q <> p) as Hne by (intros ->; now apply (Hq stream)).
        destruct p, q; try congruence; reflexivity.
    + rewrite (command_u s stream Hrx) in H. injection H as <-. split.
      * intros Hn. now destruct (Hn stream) as [Hu _].
      * intros q _. destruct q; reflexivity.
    + rewrite (command_e s stream Hrx) in H. injection H as <-. split.
      * intros Hn. now destruct (Hn stream) as [_ He].
      * intros q _. destruct q; reflexivity.
  - rewrite (command_interpreter_cons s _ _ Hrx) in H.
    rewrite switch_val_other in H by exact Htag. injection H as <-. split.
    + intros _. now rewrite direc_acknowledge.
    + intros q _. rewrite stored_acknowledge. destruct q; reflexivity.
Qed.

Lemma scan_engine_config (s : state) :
  length (fes s) = 256%nat ->
  direc (scan_engine s) = direc s /\
  startX (scan_engine s) = startX s /\ gap (scan_engine s) = gap s /\
  delay_time (scan_engine s) = delay_time s /\
  (direc s <> 0 -> startY (scan_engine s) = startY s).
Proof.
  intros Hlen. unfold scan_engine.
  destruct (Z.eqb_spec (direc s) 0) as [E|E].
  - rewrite run_step_eq by exact Hlen. cbn. repeat split. contradiction.
  - rewrite idle_step_eq. cbn. repeat split.
Qed.

(** [X10] Each configuration field has one writer.  Across an iteration of
    [loop()] the mode changes only when the byte read is [u] or [e]; the X
    origin, the gap and the dwell change only when the byte read is the
    tag of their own command; and the Y origin changes only when the byte
    read is [y] or when a scan line is run (mode RUN after processing). *)
Theorem single_writer (s s' : state) :
  length (fes s) = 256%nat ->
  loop s = Some s' ->
  ((forall rest, rx s <> "u"%char :: rest /\ rx s <> "e"%char :: rest) ->
   direc s' = direc s) /\
  (forall q, q <> Py -> (forall stream, rx s <> tag_of q :: stream) ->
             stored q s' = stored q s) /\
  ((forall stream, rx s <> "y"%char :: stream) -> direc s' <> 0 ->
   startY s' = startY s).
Proof.
  intros Hlen H. unfold loop in H.
  destruct (command_interpreter s) as [s1|] eqn:Hci; [|discriminate].
  cbn [mbind option_bind] in H. injection H as <-.
  pose proof (command_interpreter_effect s s1 Hci) as [Hfes _].
  destruct (scan_engine_config s1) as (Hd & Hx & Hg & Hp & Hy);
    [congruence|].
  destruct (command_interpreter_writers s s1 Hci) as [Wd Wq].
  split; [|split].
  - intros Hn. rewrite Hd. now apply Wd.
  - intros q Hq Hn. rewrite <- (Wq q Hn).
    destruct q; cbn [stored]; congruence.
  - intros Hn Hrun. rewrite Hd in Hrun. rewrite (Hy Hrun).
    exact (Wq Py Hn).
Qed.

Lemma single_writer_witness :
  exists s',
    loop (initial (cmd "g9") (fun _ => 0)) = Some s' /\
    direc s' = 2 /\ startX s' = 0 /\ startY s' = 0 /\ delay_time s' = 1400.
Proof.
  destruct (loop (initial (cmd "g9") (fun _ => 0))) as [s'|] eqn:H.
  - exists s'. split; [reflexivity|].
    destruct (single_writer (initial (cmd "g9") (fun _ => 0)) s' eq_refl H)
      as (Hd & Hq & Hy).
    split; [apply Hd; intros rest; split; discriminate|].
    split; [apply (Hq Px); [discriminate | intros stream; discriminate]|].
    split.
    + apply Hy; [intros stream; discriminate|].
      rewrite Hd by (intros rest; split; discriminate). discriminate.
    + apply (Hq Pp); [discriminate | intros stream; discriminate].
  - vm_compute in H. discriminate.
Defined.

(** ** The buses in IDLE mode *)

Lemma command_interpreter_ports (s s1 : state) :
  command_interpreter s = Some s1 ->
  (forall rest, rx s <> "e"%char :: rest) ->
  PORTL s1 = PORTL s /\ PORTC s1 = PORTC s /\
  List.filter is_port (trace s1) = List.filter is_port (trace s).
Proof.
  intros H Hne.
  assert (forall t, PORTL (acknowledge t) = PORTL t /\
                    PORTC (acknowledge t) = PORTC t /\
                    List.filter is_port (trace (acknowledge t))
                    = List.filter is_port (trace t)) as Hack.
  { intros t. rewrite acknowledge_trace, List.filter_app.
    unfold acknowledge. destruct (direc t =? 0); cbn;
      now rewrite app_nil_r. }
  destruct (rx s) as [|c stream] eqn:Hrx.
  { rewrite command_interpreter_nil in H by exact Hrx. injection H as <-.
    auto. }
  destruct (is_tag c) eqn:Htag.
  - apply is_tag_cases in Htag as [[p ->]|[->| ->]].
    + pose proof H as H0.
      rewrite (command_interpreter_cons s _ _ Hrx), switch_val_param in H0.
      replace (buffer_of p (set_rx stream s)) with (buffer_of p s) in H0
        by (destruct p; reflexivity).
      cbn [rx set_rx] in H0.
      destruct (read_number _ _ _) as [[[n buf] rest]|] eqn:Hread;
        [|discriminate]. clear H0.
      rewrite (command_param_eq p s stream n buf rest Hrx Hread) in H.
      injection H as <-.
      destruct (Hack (set_param p (ceiled p n) buf (set_rx rest s)))
        as (-> & -> & ->).
      destruct p; repeat split.
    + rewrite (command_u s stream Hrx) in H. injection H as <-.
      unfold emit. cbn. rewrite List.filter_app. cbn.
      now rewrite app_nil_r.
    + now destruct (Hne stream).
  - rewrite (command_interpreter_cons s _ _ Hrx) in H.
    rewrite switch_val_other in H by exact Htag. injection H as <-.
    destruct (Hack (set_rx stream s)) as (-> & -> & ->). repeat split.
Qed.

Lemma direc_send_line (s : state) : direc (send_line s) = direc s.
Proof. unfold send_line. now rewrite (for_loop_frame send_body direc). Qed.

Lemma direc_scan_line (s : state) : direc (scan_line s) = direc s.
Proof. unfold scan_line. now rewrite (for_loop_frame sample_body direc). Qed.

Lemma direc_next_line (s : state) : direc (next_line s) = direc s.
Proof. reflexivity. Qed.

Lemma direc_scan_engine (s : state) : direc (scan_engine s) = direc s.
Proof.
  unfold scan_engine. destruct (direc s =? 0); [|reflexivity].
  unfold run_step. rewrite direc_send_line, direc_next_line.
  apply direc_scan_line.
Qed.

(** [X11] While the mode stays IDLE the probe is not moved: an iteration
    of [loop()] that ends in IDLE mode and did not read [e] leaves both
    port registers as they were and writes neither bus, whatever it read;
    in particular the [x] and [y] commands only store the origin. *)
Theorem idle_buses_still (s s' : state) :
  loop s = Some s' -> direc s' <> 0 ->
  (forall rest, rx s <> "e"%char :: rest) ->
  PORTL s' = PORTL s /\ PORTC s' = PORTC s /\
  List.filter is_port (trace s') = List.filter is_port (trace s).
Proof.
  intros H Hd Hne. unfold loop in H.
  destruct (command_interpreter s) as [s1|] eqn:Hci; [|discriminate].
  cbn [mbind option_bind] in H. injection H as <-.
  destruct (command_interpreter_ports s s1 Hci Hne) as (HL & HC & HT).
  assert (direc s1 <> 0) as Hd1.
  { rewrite direc_scan_engine in Hd. exact Hd. }
  rewrite scan_engine_idle by exact Hd1. rewrite idle_step_eq.
  cbn [PORTL PORTC trace set_trace set_adc_reads].
  rewrite List.filter_app, HT. cbn [idle_events List.filter is_port].
  rewrite app_nil_r. auto.
Qed.

Lemma idle_buses_still_witness :
  exists s',
    loop (initial (cmd "y200") (fun _ => 0)) = Some s' /\
    startY s' = 200 /\ PORTC s' = 0.
Proof.
  destruct (loop (initial (cmd "y200") (fun _ => 0))) as [s'|] eqn:H.
  - exists s'.
    assert (direc s' <> 0 /\ startY s' = 200) as [Hd Hy]
      by (vm_compute in H; injection H as <-; split;
          [discriminate | reflexivity]).
    split; [reflexivity|]. split; [exact Hy|].
    destruct (idle_buses_still (initial (cmd "y200") (fun _ => 0)) s' H Hd)
      as (_ & HC & _); [intros rest; discriminate|].
    exact HC.
  - vm_compute in H. discriminate.
Defined.

(** ** The raster *)

Lemma to_int_add_mod_256 (a c : Z) : (to_int a + c) mod 256 = (a + c) mod 256.
Proof.
  unfold to_int.
  replace ((a + 32768) mod 65536 - 32768 + c) with
    (a + c + (- 256 * ((a + 32768) / 65536)) * 256)
    by (pose proof (Z.div_mod (a + 32768) 65536); lia).
  now rewrite Z.mod_add by lia.
Qed.

Lemma y_writes_app (t u : list event) :
  y_writes (t ++ u) = y_writes t ++ y_writes u.
Proof. apply omap_app. Qed.

Lemma x_writes_app (t u : list event) :
  x_writes (t ++ u) = x_writes t ++ x_writes u.
Proof. apply omap_app. Qed.

Lemma x_writes_send (a : nat -> Z) (r : nat) : x_writes (send_events a r) = [].
Proof. vm_compute. reflexivity. Qed.

Lemma y_writes_send (a : nat -> Z) (r : nat) : y_writes (send_events a r) = [].
Proof. vm_compute. reflexivity. Qed.

(** [X12] The raster in RUN mode without input: [n] iterations of
    [loop()] scan [n] lines; line number [k] (from 0) is scanned with the
    Y bus at (Y origin + k * gap) modulo 256, each line sweeps X over 0,
    1, ..., 255, and 256 samples are sent per line. *)
Theorem raster (n : nat) :
  forall s : state,
  length (fes s) = 256%nat -> direc s = 0 -> rx s = [] ->
  exists s' evs,
    loops n s = Some s' /\ trace s' = trace s ++ evs /\
    y_writes evs =
      map (fun k => (startY s + Z.of_nat k * gap s) mod 256) (seq 0 n) /\
    x_writes evs = concat (replicate n (map Z.of_nat (seq 0 256))) /\
    length (samples_sent evs) = (256 * n)%nat.
Proof.
  induction n as [|n IH]; intros s Hlen Hd Hrx.
  - exists s, []. rewrite app_nil_r. repeat split.
  - destruct (run_step_fields s Hlen) as (Hl1 & Hd1 & Hrx1 & Hy1 & Hg1 & _).
    destruct (IH (run_step s)) as (s' & evs & Hl & Ht & Hy & Hx & Hs);
      [exact Hl1 | congruence | congruence |].
    exists s', (sweep_events (startY s) (delay_time s) (adc s) (adc_reads s)
                  ++ send_events (adc s) (adc_reads s) ++ evs).
    split; [|split; [|split; [|split]]].
    + cbn [loops]. rewrite loop_run_idle_input by assumption. exact Hl.
    + rewrite Ht. rewrite run_step_eq by exact Hlen. cbn [trace].
      now rewrite <- !app_assoc.
    + rewrite !y_writes_app, y_writes_sweep, y_writes_send, Hy, Hy1, Hg1.
      cbn [app seq map]. rewrite <- seq_shift, map_map.
      f_equal; [unfold to_byte; f_equal; lia|].
      apply map_ext. intros k. rewrite to_int_add_mod_256. f_equal. lia.
    + rewrite !x_writes_app, x_writes_sweep, x_writes_send, Hx.
      reflexivity.
    + rewrite !samples_sent_app, samples_sent_sweep, samples_sent_send.
      cbn [app]. rewrite length_app, length_line_samples, Hs. lia.
Qed.

Lemma raster_witness :
  exists s' evs,
    loops 3 (set_direc 0 (set_gap 100 (set_startY 100
               (initial [] (fun _ => 0))))) = Some s' /\
    trace s' = evs /\ y_writes evs = [100; 200; 44].
Proof.
  destruct (raster 3 (set_direc 0 (set_gap 100 (set_startY 100
                        (initial [] (fun _ => 0))))) eq_refl eq_refl eq_refl)
    as (s' & evs & H1 & H2 & H3 & _).
  exists s', evs. split; [exact H1|]. split; [exact H2 | exact H3].
Defined.

(** ** The X origin is never read by the scan engine *)

Ltac hide_inj H :=
  unfold hide_x in H;
  match type of H with
  | set_rx _ (set_inputfx _ (set_startX _ ?s))
    = set_rx _ (set_inputfx _ (set_startX _ ?t)) =>
      destruct s, t; cbn in H; injection H; intros; subst
  end.

(** The scan engine commutes with hiding: it neither reads nor writes what
    is hidden. *)
Lemma scan_line_hide_x (s : state) :
  scan_line (hide_x s) = hide_x (scan_line s).
Proof.
  unfold scan_line.
  change (emit (Delay 1) (write_PORTC (startY (hide_x s)) (hide_x s)))
    with (hide_x (emit (Delay 1) (write_PORTC (startY s) s))).
  now rewrite (for_loop_commute sample_body hide_x) by reflexivity.
Qed.

Lemma next_line_hide_x (s : state) :
  next_line (hide_x s) = hide_x (next_line s).
Proof. reflexivity. Qed.

Lemma send_line_hide_x (s : state) :
  send_line (hide_x s) = hide_x (send_line s).
Proof.
  unfold send_line.
  now rewrite (for_loop_commute send_body hide_x) by reflexivity.
Qed.

Lemma scan_engine_hide_x (s : state) :
  scan_engine (hide_x s) = hide_x (scan_engine s).
Proof.
  unfold scan_engine.
  replace (direc (hide_x s)) with (direc s) by reflexivity.
  destruct (direc s =? 0); [|reflexivity].
  unfold run_step.
  now rewrite scan_line_hide_x, next_line_hide_x, send_line_hide_x.
Qed.

Lemma hide_x_idem (s : state) : hide_x (hide_x s) = hide_x s.
Proof. reflexivity. Qed.

Lemma scan_engine_hidden (s t : state) :
  hide_x s = hide_x t -> hide_x (scan_engine s) = hide_x (scan_engine t).
Proof.
  intros H. rewrite <- !scan_engine_hide_x. now rewrite H.
Qed.

(** The accumulation loop on a whole payload: the buffer and the counter
    it leaves do not depend on what follows the line feed. *)
Lemma read_digits_payload (maxDigit : Z) (pl : list ascii) :
  forall input j,
  Forall (fun c => c <> LF) pl ->
  exists buf j', forall rest,
    read_digits maxDigit input j (pl ++ LF :: rest) = Some (buf, j', rest).
Proof.
  induction pl as [|c pl IH]; intros input j Hlf.
  - exists input, j. intros rest. reflexivity.
  - inversion Hlf as [|? ? Hc Hlf']; subst.
    destruct (to_char (chr c) =? chr LF) eqn:E.
    { apply line_feed_test in E. contradiction. }
    destruct ((chr "0" <=? to_char (chr c)) && (to_char (chr c) <=? chr "9")
              && (j <? maxDigit)) eqn:D.
    + destruct (IH (<[Z.to_nat j := to_char (chr c)]> input)
                   (to_byte (j + 1)) Hlf') as (buf & j' & H).
      exists buf, j'. intros rest. cbn [app read_digits].
      rewrite E, D. apply H.
    + destruct (IH input j Hlf') as (buf & j' & H).
      exists buf, j'. intros rest. cbn [app read_digits].
      rewrite E, D. apply H.
Qed.

Lemma read_number_payload (maxDigit : Z) (input : list Z) (pl : list ascii) :
  Forall (fun c => c <> LF) pl ->
  exists n buf, forall rest,
    read_number maxDigit input (pl ++ LF :: rest) = Some (n, buf, rest).
Proof.
  intros Hlf.
  destruct (read_digits_payload maxDigit pl input 0 Hlf) as (b & j & H).
  exists (atoi (<[Z.to_nat j := 0]> b)), (<[Z.to_nat j := 0]> b).
  intros rest. unfold read_number. rewrite H. reflexivity.
Qed.

Lemma rx_acknowledge (s : state) : rx (acknowledge s) = rx s.
Proof. unfold acknowledge. destruct (direc s =? 0); reflexivity. Qed.

(** Two [x] frames, whatever their payloads. *)
Lemma step_x (s t : state) (pl1 pl2 r1 r2 : list ascii) :
  hide_x s = hide_x t ->
  Forall (fun c => c <> LF) pl1 -> Forall (fun c => c <> LF) pl2 ->
  rx s = "x"%char :: pl1 ++ LF :: r1 -> rx t = "x"%char :: pl2 ++ LF :: r2 ->
  exists s1 t1,
    command_interpreter s = Some s1 /\ command_interpreter t = Some t1 /\
    hide_x s1 = hide_x t1 /\ rx s1 = r1 /\ rx t1 = r2.
Proof.
  intros Hh H1 H2 Hs Ht.
  destruct (read_number_payload (maxDigit_of Px) (buffer_of Px s) pl1 H1)
    as (n1 & b1 & R1).
  destruct (read_number_payload (maxDigit_of Px) (buffer_of Px t) pl2 H2)
    as (n2 & b2 & R2).
  rewrite (command_param_eq Px s _ n1 b1 r1 Hs (R1 r1)).
  rewrite (command_param_eq Px t _ n2 b2 r2 Ht (R2 r2)).
  eexists. eexists. split; [reflexivity|]. split; [reflexivity|].
  rewrite !rx_acknowledge. split; [|split; reflexivity].
  clear Hs Ht R1 R2. hide_inj Hh.
  unfold acknowledge. cbn. destruct (_ =? 0); reflexivity.
Qed.

(** The same frame of another parameter. *)
Lemma step_frame (p : param) (s t : state) (pl r1 r2 : list ascii) :
  p <> Px -> hide_x s = hide_x t ->
  Forall (fun c => c <> LF) pl ->
  rx s = tag_of p :: pl ++ LF :: r1 -> rx t = tag_of p :: pl ++ LF :: r2 ->
  exists s1 t1,
    command_interpreter s = Some s1 /\ command_interpreter t = Some t1 /\
    hide_x s1 = hide_x t1 /\ rx s1 = r1 /\ rx t1 = r2.
Proof.
  intros Hp Hh H1 Hs Ht.
  assert (buffer_of p t = buffer_of p s) as Hb.
  { destruct p; try congruence; cbn [buffer_of].
    - exact (f_equal inputfy (eq_sym Hh)).
    - exact (f_equal inputgap (eq_sym Hh)).
    - exact (f_equal inputpoint (eq_sym Hh)). }
  destruct (read_number_payload (maxDigit_of p) (buffer_of p s) pl H1)
    as (n & b & R).
  rewrite (command_param_eq p s _ n b r1 Hs (R r1)).
  rewrite (command_param_eq p t _ n b r2 Ht)
    by (rewrite Hb; apply R).
  eexists. eexists. split; [reflexivity|]. split; [reflexivity|].
  rewrite !rx_acknowledge. split; [|destruct p; split; reflexivity].
  clear Hs Ht R Hb. hide_inj Hh.
  unfold acknowledge. destruct p; try congruence; cbn;
    destruct (_ =? 0); reflexivity.
Qed.

(** The same byte, not the tag of a parameter command. *)
Lemma step_byte (c : ascii) (s t : state) (r1 r2 : list ascii) :
  (forall p, c <> tag_of p) -> hide_x s = hide_x t ->
  rx s = c :: r1 -> rx t = c :: r2 ->
  exists s1 t1,
    command_interpreter s = Some s1 /\ command_interpreter t = Some t1 /\
    hide_x s1 = hide_x t1 /\ rx s1 = r1 /\ rx t1 = r2.
Proof.
  intros Hc Hh Hs Ht. destruct (is_tag c) eqn:Htag.
  - apply is_tag_cases in Htag as [[p ->]|[->| ->]].
    + now destruct (Hc p).
    + rewrite (command_u s r1 Hs), (command_u t r2 Ht).
      eexists. eexists. split; [reflexivity|]. split; [reflexivity|].
      split; [|split; reflexivity].
      clear Hs Ht. hide_inj Hh. reflexivity.
    + rewrite (command_e s r1 Hs), (command_e t r2 Ht).
      eexists. eexists. split; [reflexivity|]. split; [reflexivity|].
      split; [|split; reflexivity].
      clear Hs Ht. hide_inj Hh. reflexivity.
  - rewrite (command_interpreter_cons s _ _ Hs),
      (command_interpreter_cons t _ _ Ht).
    rewrite !switch_val_other by exact Htag. cbn [mbind option_bind].
    eexists. eexists. split; [reflexivity|]. split; [reflexivity|].
    rewrite !rx_acknowledge. split; [|split; reflexivity].
    clear Hs Ht. hide_inj Hh.
    unfold acknowledge. cbn. destruct (_ =? 0); reflexivity.
Qed.

Lemma step_param (p : param) (s t : state) (pl1 pl2 r1 r2 : list ascii) :
  (p <> Px -> pl1 = pl2) -> hide_x s = hide_x t ->
  Forall (fun c => c <> LF) pl1 -> Forall (fun c => c <> LF) pl2 ->
  rx s = tag_of p :: pl1 ++ LF :: r1 ->
  rx t = tag_of p :: pl2 ++ LF :: r2 ->
  exists s1 t1,
    command_interpreter s = Some s1 /\ command_interpreter t = Some t1 /\
    hide_x s1 = hide_x t1 /\ rx s1 = r1 /\ rx t1 = r2.
Proof.
  intros Hp Hh H1 H2 Hs Ht.
  assert (p = Px \/ p <> Px) as [->|Hne]
    by (destruct p; (now left) || (right; discriminate)).
  - now apply (step_x s t pl1 pl2 r1 r2).
  - rewrite <- (Hp Hne) in Ht. now apply (step_frame p s t pl1 r1 r2).
Qed.

Lemma param_tag_dec (c : ascii) :
  (exists p, c = tag_of p) \/ (forall p, c <> tag_of p).
Proof.
  destruct (ascii_dec c "x") as [->|Hx]; [left; now exists Px|].
  destruct (ascii_dec c "y") as [->|Hy]; [left; now exists Py|].
  destruct (ascii_dec c "g") as [->|Hg]; [left; now exists Pg|].
  destruct (ascii_dec c "p") as [->|Hp]; [left; now exists Pp|].
  right. intros p. destruct p; assumption.
Qed.

Lemma frame_app (tag : ascii) (pl r : list ascii) :
  frame tag pl ++ r = tag :: pl ++ LF :: r.
Proof. unfold frame. cbn [app]. now rewrite <- app_assoc. Qed.

(** The interpreter keeps two executions related: both stall, or both go
    on in states that agree outside what is hidden. *)
Lemma command_interpreter_related (s t : state) :
  x_related s t ->
  both x_related (command_interpreter s) (command_interpreter t).
Proof.
  intros [Hh Hv].
  assert (forall s1 t1 r1 r2,
            x_variant r1 r2 ->
            command_interpreter s = Some s1 /\
            command_interpreter t = Some t1 /\
            hide_x s1 = hide_x t1 /\ rx s1 = r1 /\ rx t1 = r2 ->
            both x_related (command_interpreter s) (command_interpreter t))
    as Done.
  { intros s1 t1 r1 r2 Hr (-> & -> & H & <- & <-). now split. }
  remember (rx s) as l1 eqn:Hs. remember (rx t) as l2 eqn:Ht.
  symmetry in Hs, Ht.
  destruct Hv as [l|pl1 pl2 r1 r2 H1 H2 Hr|l1 l2 N1 N2|p pl r1 r2 H1 Hr
                 |c r1 r2 Hc Hr].
  - destruct l as [|c stream].
    { rewrite !command_interpreter_nil by assumption. cbn.
      split; [exact Hh|]. rewrite Hs, Ht. constructor. }
    destruct (param_tag_dec c) as [[p ->]|Hc].
    + destruct (in_dec ascii_dec LF stream) as [Hin|Hnin].
      * destruct (split_at_line_feed stream Hin) as (pl & rest & -> & Hpl).
        destruct (step_param p s t pl pl rest rest) as (s1 & t1 & H);
          auto.
        apply (Done s1 t1 rest rest); [constructor | exact H].
      * rewrite (command_param_stall p s stream Hs Hnin),
          (command_param_stall p t stream Ht Hnin). exact I.
    + destruct (step_byte c s t stream stream Hc Hh Hs Ht) as (s1 & t1 & H).
      apply (Done s1 t1 stream stream); [constructor | exact H].
  - rewrite frame_app in Hs, Ht.
    destruct (step_x s t pl1 pl2 r1 r2 Hh H1 H2 Hs Ht) as (s1 & t1 & H).
    apply (Done s1 t1 r1 r2 Hr H).
  - rewrite (command_param_stall Px s l1 Hs N1),
      (command_param_stall Px t l2 Ht N2). exact I.
  - rewrite frame_app in Hs, Ht.
    destruct (step_param p s t pl pl r1 r2) as (s1 & t1 & H); auto.
    apply (Done s1 t1 r1 r2 Hr H).
  - destruct (step_byte c s t r1 r2 Hc Hh Hs Ht) as (s1 & t1 & H).
    apply (Done s1 t1 r1 r2 Hr H).
Qed.

Lemma loop_related (s t : state) :
  x_related s t -> both x_related (loop s) (loop t).
Proof.
  intros H. apply command_interpreter_related in H. unfold loop.
  destruct (command_interpreter s) as [s1|],
           (command_interpreter t) as [t1|]; cbn in H |- *;
    try contradiction; [|exact I].
  destruct H as [Hh Hv]. split.
  - now apply scan_engine_hidden.
  - now rewrite !rx_scan_engine.
Qed.

Lemma loops_related (n : nat) :
  forall s t : state,
  x_related s t -> both x_related (loops n s) (loops n t).
Proof.
  induction n as [|n IH]; intros s t H; [exact H|].
  cbn [loops]. apply loop_related in H.
  destruct (loop s) as [s1|], (loop t) as [t1|]; cbn in H |- *;
    try contradiction; [|exact I].
  now apply IH.
Qed.

Lemma both_hidden (o1 o2 : option state) :
  both x_related o1 o2 ->
  hide_x <$> o1 = hide_x <$> o2 /\ trace <$> o1 = trace <$> o2.
Proof.
  destruct o1 as [a|], o2 as [b|]; cbn; try contradiction; [|auto].
  intros [H _]. split; [now rewrite H|].
  apply f_equal. exact (f_equal trace H).
Qed.

(** [C8] The scan engine never reads [startX].  Take two states that
    agree on everything but the X origin and the digit buffer of the [x]
    command (and the input still to come): the scan engine, in RUN mode
    and in IDLE mode, takes them to states that agree in the same way, so
    the bus writes, pauses, conversions and serial output it adds and the
    port registers it leaves are the same.  And take two executions whose
    inputs are the same commands except for the payloads of their [x]
    frames: after any number of iterations of [loop()] both have stalled,
    or their traces and all of their state but the X origin, its buffer
    and the pending input are equal.  In particular two runs from the
    initial state on such inputs produce the same trace. *)
Theorem startX_not_observable (s t : state) (n : nat) :
  hide_x s = hide_x t ->
  (hide_x (scan_engine s) = hide_x (scan_engine t) /\
   trace (scan_engine s) = trace (scan_engine t) /\
   PORTL (scan_engine s) = PORTL (scan_engine t) /\
   PORTC (scan_engine s) = PORTC (scan_engine t)) /\
  (x_variant (rx s) (rx t) ->
   hide_x <$> loops n s = hide_x <$> loops n t /\
   trace <$> loops n s = trace <$> loops n t) /\
  (forall input1 input2 a,
     x_variant input1 input2 ->
     trace <$> loops n (initial input1 a)
     = trace <$> loops n (initial input2 a)).
Proof.
  intros H. split; [|split].
  - pose proof (scan_engine_hidden s t H) as E.
    split; [exact E|]. split; [exact (f_equal trace E)|].
    split; [exact (f_equal PORTL E) | exact (f_equal PORTC E)].
  - intros Hv. apply both_hidden, loops_related. now split.
  - intros input1 input2 a Hv.
    apply (both_hidden (loops n (initial input1 a))
             (loops n (initial input2 a))).
    apply loops_related. split; [reflexivity | exact Hv].
Qed.

Lemma startX_not_observable_witness :
  (startX <$> loops 1 (initial (cmd "x10" ++ bytes "u") (fun m => Z.of_nat m))
   = Some 10 /\
   startX <$> loops 1 (initial (cmd "x200" ++ bytes "u") (fun m => Z.of_nat m))
   = Some 200) /\
  trace <$> loops 2 (initial (cmd "x10" ++ bytes "u") (fun m => Z.of_nat m))
  = trace <$> loops 2 (initial (cmd "x200" ++ bytes "u") (fun m => Z.of_nat m)).
Proof.
  split; [split; reflexivity|].
  apply (proj1 (proj2 (startX_not_observable
           (initial (cmd "x10" ++ bytes "u") (fun m => Z.of_nat m))
           (initial (cmd "x200" ++ bytes "u") (fun m => Z.of_nat m))
           2 eq_refl))).
  apply (xv_x (bytes "10") (bytes "200") (bytes "u") (bytes "u")).
  - repeat constructor; discriminate.
  - repeat constructor; discriminate.
  - constructor.
Defined.
